(** * Inisw6/moard-recsys-engine: the DQN agent and the LLM response handler

    A shallow embedding of

      - [src/components/agents/dqn_agent.py] (class [DQNAgent]) and
      - [src/components/simulation/llm_response_handler.py]
        (class [LLMResponseHandler]),

    together with the properties that the specification states about them.

    Conventions of the embedding.

      - Python floats (and the float32 entries of torch tensors and numpy
        arrays) are idealised as rationals [Q]: every property below is about
        the order and the shape of the computation, not about rounding.  NaN
        and the infinities are outside the model, except where the response
        handler has to convert a JSON number with [int()].
      - A Python [dict] whose iteration order the code relies on
        ([candidate_embs.items()], [nxt.values()]) is an association list in
        insertion order; a JSON object that is only looked up
        ([resp.get(...)]) is a [gmap string _]; the checkpoint blob, whose
        keys are fixed by [save], is a record of optional fields.
      - Methods that mutate [self] or raise are written in a small
        state-and-exception monad: a raised exception keeps the mutations that
        were made before it. *)

From Stdlib Require Import QArith Qabs Qround ZArith Lia Lqa Ascii String.
From stdpp Require Import gmap strings list fin_maps sorting.

Open Scope Q_scope.

(** ** Python, numpy and torch primitives used by the sources *)

Module Py.

(** [a < b] on floats. *)
Definition Qlt_bool (a b : Q) : bool := negb (Qle_bool b a).

(** Python's two-argument [max(a, b)]: the first argument is kept unless the
    second one is strictly greater. *)
Definition max2 (a b : Q) : Q := if Qlt_bool a b then b else a.

(** [enumerate(l)]. *)
Definition enumerate {A : Type} (l : list A) : list (nat * A) :=
  zip (seq 0 (length l)) l.

(** numpy boolean-mask indexing [vals[mask]] (both of the same length). *)
Fixpoint mask_select {A : Type} (vals : list A) (mask : list bool) : list A :=
  match vals, mask with
  | v :: vs, b :: bs =>
      if b then v :: mask_select vs bs else mask_select vs bs
  | _, _ => []
  end.

(** [ndarray.max()]: a reduction with maximum; numpy raises on an empty
    array, which is [None] here. *)
Definition np_max (l : list Q) : option Q :=
  match l with
  | [] => None
  | x :: xs => Some (fold_left max2 xs x)
  end.

(** [torch.argmax] of a one-dimensional tensor: the index of the first
    maximal entry; torch raises on an empty tensor, which is [None] here.
    [argmax_from] scans the rest of the tensor, carrying the best index and
    value seen so far and the index of the next entry. *)
Fixpoint argmax_from (best_i : nat) (best_v : Q) (i : nat) (l : list Q) : nat :=
  match l with
  | [] => best_i
  | x :: xs =>
      if Qlt_bool best_v x then argmax_from i x (S i) xs
      else argmax_from best_i best_v (S i) xs
  end.

Definition argmax (l : list Q) : option nat :=
  match l with
  | [] => None
  | x :: xs => Some (argmax_from 0%nat x 1%nat xs)
  end.

(** [list.sort(key=..., reverse=True)]: Python's sort is stable, and with
    [reverse=True] it is still stable (elements with equal keys keep their
    original order).  The model is the stable insertion sort into
    descending key order: an element is inserted in front of the sorted
    rest of the list, and moves behind the elements whose key is strictly
    greater. *)
Fixpoint insert_desc {A : Type} (key : A → Q) (x : A) (l : list A) : list A :=
  match l with
  | [] => [x]
  | y :: ys =>
      if Qlt_bool (key x) (key y) then y :: insert_desc key x ys
      else x :: y :: ys
  end.

Definition sort_desc {A : Type} (key : A → Q) (l : list A) : list A :=
  foldr (insert_desc key) [] l.

(** The slice [l[:k]] for an integer [k]: a negative [k] counts from the
    end of the list. *)
Definition slice_to {A : Type} (l : list A) (k : Z) : list A :=
  if (0 <=? k)%Z then take (Z.to_nat k) l
  else take (Z.to_nat (Z.of_nat (length l) + k)) l.

(** A float made from a [bool], as [torch.tensor(dones, dtype=float32)]
    does. *)
Definition float_of_bool (b : bool) : Q := if b then 1 else 0.

(** [torch.nn.functional.mse_loss] and [smooth_l1_loss] (default
    [beta = 1], mean reduction).  On an empty batch torch gives NaN; the
    division by zero of [Q] gives 0 there. *)
Definition mean (l : list Q) : Q :=
  fold_right Qplus 0 l / inject_Z (Z.of_nat (length l)).

Definition mse_loss (input target : list Q) : Q :=
  mean (zip_with (λ x t, (x - t) * (x - t)) input target).

Definition smooth_l1_loss (input target : list Q) : Q :=
  mean (zip_with (λ x t,
                    let d := Qabs (x - t) in
                    if Qlt_bool d 1 then (1 # 2) * d * d else d - (1 # 2))
                 input target).

End Py.

(** ** Data of the agent *)

(** A state vector and a candidate embedding are [List[float]]. *)
Definition State : Type := list Q.
Definition Emb : Type := list Q.

(** [Dict[str, List[List[float]]]]: candidates per content type, in the
    insertion order of the dict. *)
Definition CandDict : Type := list (string * list Emb).

(** One record of the replay buffer, as [store] pushes it:
    [((user_state, content_emb), reward, (next_state, next_cands_embs), done)]. *)
Record Experience : Type := mkExperience {
  user_state : State;
  content_emb : Emb;
  reward : Q;
  next_state : State;
  next_cands_embs : CandDict;
  done : bool
}.

(** Modelled from the spec: [models/q_network.py] ([QNetwork]) is not among
    the sources.  Its contract (section 6) is "one call over N inputs returns
    N outputs in input order": a network with parameters [θ] gives one scalar
    per (state, candidate) pair, and a batched call is the pointwise map. *)
Class QNetwork (Params : Type) : Type := {
  q_value : Params → State → Emb → Q
}.

Section BatchedTargets.
Context {Params : Type} `{!QNetwork Params}.

(** [net(states, cands).squeeze(1)]: one batched call. *)
Definition net_call (θ : Params) (states : list State) (cands : list Emb) : list Q :=
  zip_with (q_value θ) states cands.

(** [list(chain.from_iterable(nxt.values()))]. *)
Definition all_embs (nxt : CandDict) : list Emb := concat (map snd nxt).

(** The three parallel work lists of [learn] (lines 155-161). *)
Record FlatWork : Type := mkFlatWork {
  flat_states : list State;
  flat_cands : list Emb;
  batch_indices : list nat
}.

Definition flat_empty : FlatWork := mkFlatWork [] [] [].

(** The body of the inner loop: the three [append]s. *)
Definition flat_append (i : nat) (ns : State) (w : FlatWork) (cand : Emb) : FlatWork :=
  mkFlatWork (flat_states w ++ [ns]) (flat_cands w ++ [cand]) (batch_indices w ++ [i]).

(** The body of the outer loop, for record [i]. *)
Definition flat_record (w : FlatWork) (rec : nat * (State * CandDict)) : FlatWork :=
  let '(i, (ns, nxt)) := rec in
  fold_left (flat_append i ns) (all_embs nxt) w.

Definition flatten_next (next_states : list State) (next_cands : list CandDict) : FlatWork :=
  fold_left flat_record (Py.enumerate (zip next_states next_cands)) flat_empty.

(** [max_nq] (lines 163-186): the per-record maximum of the target network
    over the flat work list, or zeros when the work list is empty. *)
Definition max_next_q (θ_target : Params)
    (next_states : list State) (next_cands : list CandDict) : list Q :=
  let w := flatten_next next_states next_cands in
  match flat_states w with
  | _ :: _ =>
      let q_flat := net_call θ_target (flat_states w) (flat_cands w) in
      map (λ i,
             let sample_qs :=
               Py.mask_select q_flat (map (λ b, Nat.eqb b i) (batch_indices w)) in
             match Py.np_max sample_qs with
             | Some m => m
             | None => 0
             end)
          (seq 0 (length next_states))
  | [] => replicate (length next_states) 0
  end.

(** [target = rs + self.gamma * max_nq * (1 - ds)] (line 189), elementwise. *)
Definition bootstrap (gamma r m d : Q) : Q := r + gamma * m * (1 - d).

Definition targets_of (gamma : Q) (rs max_nq ds : list Q) : list Q :=
  zip_with (λ r md, bootstrap gamma r md.1 md.2) rs (zip max_nq ds).

(** The target computation of [learn] on a sampled batch: the columns that
    [buffer.sample] returns are the fields of the sampled records. *)
Definition learn_targets (gamma : Q) (θ_target : Params) (batch : list Experience) : list Q :=
  let rewards := map reward batch in
  let next_states := map next_state batch in
  let next_cands := map next_cands_embs batch in
  let dones := map done batch in
  let rs := rewards in
  let ds := map Py.float_of_bool dones in
  targets_of gamma rs (max_next_q θ_target next_states next_cands) ds.

(** The values of the target network on one record's own next-candidates,
    each paired with that record's own next state. *)
Definition own_values (θ_target : Params) (e : Experience) : list Q :=
  map (q_value θ_target (next_state e)) (all_embs (next_cands_embs e)).

End BatchedTargets.

(** ** Exceptions, and methods that mutate and raise *)

(** The exceptions that the modelled code can raise.  [UnsupportedLossType]
    is the [ValueError] of [learn] (line 197); [SampleError] is the error of
    [sample(n)] when [n] records cannot be drawn. *)
Inductive Exn : Type :=
  | UnsupportedLossType (loss_type : string)
  | SampleError
  | ZeroDivisionError
  | KeyError (key : string)
  | TypeError
  | ValueError
  | OverflowError
  | IndexError.

Inductive Outcome (A : Type) : Type :=
  | Return (a : A)
  | Raise (e : Exn).
Arguments Return {A} a.
Arguments Raise {A} e.

Global Instance outcome_ret : MRet Outcome := λ A a, Return a.
Global Instance outcome_bind : MBind Outcome := λ A B f m,
  match m with
  | Return a => f a
  | Raise e => Raise e
  end.

(** A method over a mutable state [S]: the state after the call is returned
    also when the call raises. *)
Record Act (S A : Type) : Type := mkAct { run : S → Outcome A * S }.
Arguments mkAct {S A} _.
Arguments run {S A} _ _.

Global Instance act_ret S : MRet (Act S) := λ A a, mkAct (λ s, (Return a, s)).
Global Instance act_bind S : MBind (Act S) := λ A B f m,
  mkAct (λ s,
    match run m s with
    | (Return a, s') => run (f a) s'
    | (Raise e, s') => (Raise e, s')
    end).

Definition raise {S A : Type} (e : Exn) : Act S A := mkAct (λ s, (Raise e, s)).

(** ** Collaborators of the agent *)

(** Python's [random] module: a generator state and the three draws the
    sources make; a draw that raises is [None]. *)
Class PyRandom (PyRng : Type) : Type := {
  random : PyRng → Q * PyRng;
  randrange : Z → PyRng → option (Z * PyRng);
  sample : ∀ A : Type, list A → Z → PyRng → option (list A * PyRng)
}.
Arguments sample {_ _} {A} _ _ _.

(** What the documentation of the module promises: [random()] is in the
    half-open unit interval; [sample(population, k)] raises exactly when [k]
    is negative or larger than the population, and gives [k] elements. *)
Class PyRandomLaws (PyRng : Type) `{!PyRandom PyRng} : Prop := {
  random_unit : ∀ g, 0 <= (random g).1 ∧ (random g).1 < 1;
  sample_defined : ∀ A (l : list A) k g,
    is_Some (sample (A:=A) l k g) ↔ (0 ≤ k ≤ Z.of_nat (length l))%Z;
  sample_length : ∀ A (l : list A) k g b g',
    sample (A:=A) l k g = Some (b, g') → Z.of_nat (length b) = k
}.

(** The loss kinds that [learn] knows. *)
Inductive LossFn : Type := MSE | SmoothL1.

Definition loss_value (f : LossFn) (input target : list Q) : Q :=
  match f with
  | MSE => Py.mse_loss input target
  | SmoothL1 => Py.smooth_l1_loss input target
  end.

(** [torch.optim.Adam] over the live network: [opt_init] is the constructor,
    and [opt_step] is [zero_grad(); loss.backward(); step()] for the loss of
    the live network on the batch [(us, ce)] against [target]; it gives the
    new live parameters and the new optimizer state. *)
Class Optimizer (Params OptState : Type) : Type := {
  opt_init : Params → Q → OptState;
  opt_step : LossFn → OptState → Params → list State → list Emb → list Q →
             Params * OptState
}.

(** Modelled from the spec: [replay/replay_buffer.py] ([ReplayBuffer]) is not
    among the sources.  Section 6: [push] appends and evicts the oldest
    record on capacity overflow, [sample(n)] draws [n] records without
    replacement and fails for [n > len()], [len()] is the current count. *)
Record ReplayBuffer : Type := mkReplayBuffer {
  capacity : nat;
  records : list Experience
}.

Definition buffer_len (b : ReplayBuffer) : Z := Z.of_nat (length (records b)).

Definition buffer_push (e : Experience) (b : ReplayBuffer) : ReplayBuffer :=
  let l := records b ++ [e] in
  mkReplayBuffer (capacity b) (drop (length l - capacity b) l).

Definition buffer_sample {PyRng : Type} `{!PyRandom PyRng}
    (b : ReplayBuffer) (n : Z) (g : PyRng)
    : option (list Experience * PyRng) :=
  sample (records b) n g.

(** ** The agent *)

Section Agent.
Context {Params OptState PyRng : Type}
  `{!QNetwork Params} `{!Optimizer Params OptState} `{!PyRandom PyRng}.

(** The attributes of [DQNAgent]. *)
Record Agent : Type := mkAgent {
  q_net : Params;
  target_q_net : Params;
  optimizer : OptState;
  buffer : ReplayBuffer;
  gamma : Q;
  batch_size : Z;
  epsilon : Q;
  epsilon_min : Q;
  epsilon_dec : Q;
  update_freq : Z;
  step_count : Z;
  loss_type : string
}.

Definition set_q_net (θ : Params) (a : Agent) : Agent :=
  mkAgent θ (target_q_net a) (optimizer a) (buffer a) (gamma a) (batch_size a)
    (epsilon a) (epsilon_min a) (epsilon_dec a) (update_freq a) (step_count a)
    (loss_type a).
Definition set_target_q_net (θ : Params) (a : Agent) : Agent :=
  mkAgent (q_net a) θ (optimizer a) (buffer a) (gamma a) (batch_size a)
    (epsilon a) (epsilon_min a) (epsilon_dec a) (update_freq a) (step_count a)
    (loss_type a).
Definition set_optimizer (o : OptState) (a : Agent) : Agent :=
  mkAgent (q_net a) (target_q_net a) o (buffer a) (gamma a) (batch_size a)
    (epsilon a) (epsilon_min a) (epsilon_dec a) (update_freq a) (step_count a)
    (loss_type a).
Definition set_buffer (b : ReplayBuffer) (a : Agent) : Agent :=
  mkAgent (q_net a) (target_q_net a) (optimizer a) b (gamma a) (batch_size a)
    (epsilon a) (epsilon_min a) (epsilon_dec a) (update_freq a) (step_count a)
    (loss_type a).
Definition set_epsilon (e : Q) (a : Agent) : Agent :=
  mkAgent (q_net a) (target_q_net a) (optimizer a) (buffer a) (gamma a)
    (batch_size a) e (epsilon_min a) (epsilon_dec a) (update_freq a)
    (step_count a) (loss_type a).
Definition set_epsilon_min (e : Q) (a : Agent) : Agent :=
  mkAgent (q_net a) (target_q_net a) (optimizer a) (buffer a) (gamma a)
    (batch_size a) (epsilon a) e (epsilon_dec a) (update_freq a)
    (step_count a) (loss_type a).
Definition set_epsilon_dec (e : Q) (a : Agent) : Agent :=
  mkAgent (q_net a) (target_q_net a) (optimizer a) (buffer a) (gamma a)
    (batch_size a) (epsilon a) (epsilon_min a) e (update_freq a)
    (step_count a) (loss_type a).
Definition set_step_count (n : Z) (a : Agent) : Agent :=
  mkAgent (q_net a) (target_q_net a) (optimizer a) (buffer a) (gamma a)
    (batch_size a) (epsilon a) (epsilon_min a) (epsilon_dec a) (update_freq a)
    n (loss_type a).

(** What a method of the agent can read and write: the agent itself and
    the state of the global [random] generator. *)
Record World : Type := mkWorld {
  agent : Agent;
  rng : PyRng
}.

Definition get_agent : Act World Agent :=
  mkAct (λ w, (Return (agent w), w)).
Definition update_agent (f : Agent → Agent) : Act World unit :=
  mkAct (λ w, (Return tt, mkWorld (f (agent w)) (rng w))).

(** [random.random()]. *)
Definition draw_random : Act World Q :=
  mkAct (λ w, let '(u, g) := random (rng w) in (Return u, mkWorld (agent w) g)).

(** [random.randrange(n)]. *)
Definition draw_randrange (n : Z) : Act World Z :=
  mkAct (λ w,
    match randrange n (rng w) with
    | Some (i, g) => (Return i, mkWorld (agent w) g)
    | None => (Raise ValueError, w)
    end).

(** [random.sample(population, k)]. *)
Definition draw_sample {A : Type} (population : list A) (k : Z) : Act World (list A) :=
  mkAct (λ w,
    match sample population k (rng w) with
    | Some (l, g) => (Return l, mkWorld (agent w) g)
    | None => (Raise ValueError, w)
    end).

(** [self.buffer.sample(n)]. *)
Definition sample_batch (n : Z) : Act World (list Experience) :=
  mkAct (λ w,
    match buffer_sample (buffer (agent w)) n (rng w) with
    | Some (batch, g) => (Return batch, mkWorld (agent w) g)
    | None => (Raise SampleError, w)
    end).

(** [__init__] (lines 67-83).  The two networks are built from the freshly
    initialised parameters [θ0] (the target network loads the state of the
    live one); no argument is validated, [loss_type] included. *)
Definition __init__ (θ0 : Params) (lr : Q) (batch_size : Z)
    (eps_start eps_min eps_decay gamma : Q) (update_freq : Z)
    (capacity : nat) (loss_type : string) : Agent :=
  mkAgent θ0 θ0 (opt_init θ0 lr) (mkReplayBuffer capacity [])
    gamma batch_size eps_start eps_min eps_decay update_freq 0 loss_type.

(** [select_action] (lines 97-105). *)
Definition select_action (user_state : State) (candidate_embs : list Emb) : Act World Z :=
  u ← draw_random;
  a ← get_agent;
  if Py.Qlt_bool u (epsilon a) then
    draw_randrange (Z.of_nat (length candidate_embs))
  else
    let us_rep := replicate (length candidate_embs) user_state in
    let q_vals := net_call (q_net a) us_rep candidate_embs in
    match Py.argmax q_vals with
    | Some i => mret (Z.of_nat i)
    | None => raise IndexError
    end.

(** [store] (lines 126-128). *)
Definition store (user_state : State) (content_emb : Emb) (reward : Q)
    (next_state : State) (next_cands_embs : CandDict) (done : bool) : Act World unit :=
  update_agent (λ a,
    set_buffer
      (buffer_push
         (mkExperience user_state content_emb reward next_state next_cands_embs done)
         (buffer a)) a).

(** The loss selection of [learn] (lines 192-197). *)
Definition select_loss (loss_type : string) : Act World LossFn :=
  if String.eqb loss_type "mse" then mret MSE
  else if String.eqb loss_type "smooth_l1" then mret SmoothL1
  else raise (UnsupportedLossType loss_type).

(** [learn] (lines 136-211).  The log line of the synchronisation branch
    has no effect on the agent and is left out.  [load_state_dict] copies the
    values of the live parameters into the target network's own tensors, so
    the two networks never share storage: the synchronisation is the
    assignment of a value. *)
Definition learn : Act World (option Q) :=
  a ← get_agent;
  if (buffer_len (buffer a) <? batch_size a)%Z then mret None
  else
    update_agent (λ a, set_step_count (step_count a + 1) a);;
    batch ← sample_batch (batch_size a);
    a ← get_agent;
    let us := map user_state batch in
    let ce := map content_emb batch in
    let q_sa := net_call (q_net a) us ce in
    let target := learn_targets (gamma a) (target_q_net a) batch in
    loss_fn ← select_loss (loss_type a);
    let loss := loss_value loss_fn q_sa target in
    let '(θ', o') := opt_step loss_fn (optimizer a) (q_net a) us ce target in
    update_agent (λ a, set_q_net θ' (set_optimizer o' a));;
    a ← get_agent;
    (if (update_freq a =? 0)%Z then raise ZeroDivisionError
     else if (step_count a mod update_freq a =? 0)%Z then
       update_agent (λ a, set_target_q_net (q_net a) a)
     else mret tt);;
    mret (Some loss).

(** The flat list of identifiers of [select_slate] (lines 229-232). *)
Definition all_candidates (candidate_embs : CandDict) : list (string * nat) :=
  flat_map (λ '(ctype, embs), map (λ idx, (ctype, idx)) (seq 0 (length embs)))
           candidate_embs.

(** The (identifier, value) pairs of the exploitation branch
    (lines 243-259): one batched call of the live network per type. *)
Definition q_values_with_pos (θ : Params) (state : State) (candidate_embs : CandDict)
    : list ((string * nat) * Q) :=
  flat_map (λ '(ctype, embs),
              match embs with
              | [] => []
              | _ :: _ =>
                  let state_rep := replicate (length embs) state in
                  let q_vals := net_call θ state_rep embs in
                  map (λ '(i, q_val), ((ctype, i), q_val)) (Py.enumerate q_vals)
              end)
           candidate_embs.

(** Lines 261-262: sort by value, descending, and keep the first
    [max_recs] identifiers. *)
Definition exploit_slate (θ : Params) (state : State) (candidate_embs : CandDict)
    (max_recs : Z) : list (string * nat) :=
  map fst (Py.slice_to (Py.sort_desc snd (q_values_with_pos θ state candidate_embs))
                       max_recs).

(** [select_slate] (lines 229-262). *)
Definition select_slate (state : State) (candidate_embs : CandDict) (max_recs : Z)
    : Act World (list (string * nat)) :=
  let all := all_candidates candidate_embs in
  match all with
  | [] => mret []
  | _ :: _ =>
      u ← draw_random;
      a ← get_agent;
      if Py.Qlt_bool u (epsilon a) then
        let sample_count := Z.min max_recs (Z.of_nat (length all)) in
        draw_sample all sample_count
      else
        mret (exploit_slate (q_net a) state candidate_embs max_recs)
  end.

(** [decay_epsilon] (line 266). *)
Definition decay_epsilon : Act World unit :=
  update_agent (λ a,
    set_epsilon (Py.max2 (epsilon a * epsilon_dec a) (epsilon_min a)) a).

(** The checkpoint blob: the dict that [save] writes.  A blob read back by
    [load] may lack any of the keys. *)
Record Checkpoint : Type := mkCheckpoint {
  ck_q_net_state : option Params;
  ck_target_net_state : option Params;
  ck_optimizer_state : option OptState;
  ck_step_count : option Z;
  ck_epsilon : option Q;
  ck_epsilon_min : option Q;
  ck_epsilon_dec : option Q
}.

(** [save] (lines 274-282): the blob that is written. *)
Definition save (a : Agent) : Checkpoint :=
  mkCheckpoint (Some (q_net a)) (Some (target_q_net a)) (Some (optimizer a))
    (Some (step_count a)) (Some (epsilon a)) (Some (epsilon_min a))
    (Some (epsilon_dec a)).

(** [checkpoint[key]]. *)
Definition ck_index {A : Type} (key : string) (field : option A) : Act World A :=
  match field with
  | Some v => mret v
  | None => raise (KeyError key)
  end.

(** [load] (lines 292-301), from the blob that [torch.load] returned. *)
Definition load (checkpoint : Checkpoint) : Act World unit :=
  θ ← ck_index "q_net_state" (ck_q_net_state checkpoint);
  update_agent (set_q_net θ);;
  θt ← ck_index "target_net_state" (ck_target_net_state checkpoint);
  update_agent (set_target_q_net θt);;
  o ← ck_index "optimizer_state" (ck_optimizer_state checkpoint);
  update_agent (set_optimizer o);;
  update_agent (set_step_count (default 0%Z (ck_step_count checkpoint)));;
  update_agent (λ a, set_epsilon (default (epsilon a) (ck_epsilon checkpoint)) a);;
  update_agent (λ a,
    set_epsilon_min (default (epsilon_min a) (ck_epsilon_min checkpoint)) a);;
  update_agent (λ a,
    set_epsilon_dec (default (epsilon_dec a) (ck_epsilon_dec checkpoint)) a).

End Agent.

Arguments Agent : clear implicits.
Arguments World : clear implicits.
Arguments Checkpoint : clear implicits.

(** ** The response handler *)

Module Handler.

(** A Python float as [json.loads] can produce it: a finite number, NaN, or
    an infinity. *)
Inductive PyFloat : Type :=
  | Finite (q : Q)
  | NaN
  | Infinity (negative : bool).

(** A value decoded from JSON.  An object is only ever looked up by key. *)
#[warnings="-register-all"]
Inductive Json : Type :=
  | JNull
  | JBool (b : bool)
  | JInt (z : Z)
  | JFloat (f : PyFloat)
  | JStr (s : string)
  | JList (l : list Json)
  | JDict (d : gmap string Json).

(** [d.get(key)] and [d.get(key, default)]. *)
Definition dict_get (d : gmap string Json) (key : string) : Json :=
  default JNull (d !! key).
Definition dict_get_default (d : gmap string Json) (key : string) (dflt : Json) : Json :=
  default dflt (d !! key).

(** *** The builtin [int()] *)

(** Rounding towards zero, as [int(float)] does. *)
Definition Qtruncate (q : Q) : Z :=
  if Qle_bool 0 q then Qfloor q else Qceiling q.

(** The whitespace of [str.strip()] and of the class [\s] of a [str]
    pattern (the ASCII part of it): tab to carriage return, the four
    separators [\x1c] to [\x1f], and the space. *)
Definition is_space (c : ascii) : bool :=
  let n := nat_of_ascii c in
  (Nat.leb 9 n && Nat.leb n 13) || (Nat.leb 28 n && Nat.leb n 32).

(** The whitespace that [int(str)] strips from an ASCII string: tab to
    carriage return and the space.  The separators [\x1c] to [\x1f] are not
    among them: [int] of a string that ends with one raises [ValueError]. *)
Definition is_int_space (c : ascii) : bool :=
  let n := nat_of_ascii c in
  (Nat.leb 9 n && Nat.leb n 13) || Nat.eqb n 32.

Definition digit_of (c : ascii) : option Z :=
  let n := nat_of_ascii c in
  if Nat.leb 48 n && Nat.leb n 57 then Some (Z.of_nat (n - 48)) else None.

Fixpoint lstrip (l : list ascii) : list ascii :=
  match l with
  | c :: cs => if is_space c then lstrip cs else l
  | [] => []
  end.

Definition strip (l : list ascii) : list ascii :=
  reverse (lstrip (reverse (lstrip l))).

Fixpoint int_lstrip (l : list ascii) : list ascii :=
  match l with
  | c :: cs => if is_int_space c then int_lstrip cs else l
  | [] => []
  end.

Definition int_strip (l : list ascii) : list ascii :=
  reverse (int_lstrip (reverse (int_lstrip l))).

(** Decimal digits, with single underscores allowed between digits.
    [after_digit] tells whether the previous character was a digit. *)
Fixpoint digits (acc : Z) (after_digit : bool) (l : list ascii) : option Z :=
  match l with
  | [] => if after_digit then Some acc else None
  | c :: cs =>
      match digit_of c with
      | Some d => digits (10 * acc + d) true cs
      | None =>
          if Ascii.eqb c "_" && after_digit then digits acc false cs else None
      end
  end.

(** The limit of [int(str)] on the number of digits
    ([sys.int_max_str_digits], 4300 unless configured otherwise): a longer
    number raises [ValueError]. *)
Definition int_max_str_digits : nat := 4300.

Definition count_digits (l : list ascii) : nat :=
  length (List.filter (λ c, match digit_of c with
                            | Some _ => true
                            | None => false
                            end) l).

Definition limited_digits (l : list ascii) : option Z :=
  if Nat.ltb int_max_str_digits (count_digits l) then None
  else digits 0 false l.

(** [int(s)] for a string, in base ten.  Strings are byte strings here, so a
    number written with non-ASCII digits or surrounded by non-ASCII
    whitespace, which Python accepts, is rejected. *)
Definition int_of_string (s : string) : option Z :=
  match int_strip (list_ascii_of_string s) with
  | "-"%char :: cs => Z.opp <$> limited_digits cs
  | "+"%char :: cs => limited_digits cs
  | cs => limited_digits cs
  end.

Definition int_of_float (f : PyFloat) : Outcome Z :=
  match f with
  | Finite q => Return (Qtruncate q)
  | NaN => Raise ValueError
  | Infinity _ => Raise OverflowError
  end.

Definition py_int (v : Json) : Outcome Z :=
  match v with
  | JNull => Raise TypeError
  | JBool b => Return (Z.b2z b)
  | JInt z => Return z
  | JFloat f => int_of_float f
  | JStr s =>
      match int_of_string s with
      | Some z => Return z
      | None => Raise ValueError
      end
  | JList _ | JDict _ => Raise TypeError
  end.

(** *** Numbers: [isinstance(v, (int, float))] and comparisons with 0 *)

Inductive Num : Type :=
  | NInt (z : Z)
  | NFloat (f : PyFloat).

(** [bool] is a subclass of [int]. *)
Definition as_number (v : Json) : option Num :=
  match v with
  | JBool b => Some (NInt (Z.b2z b))
  | JInt z => Some (NInt z)
  | JFloat f => Some (NFloat f)
  | _ => None
  end.

Definition num_lt0 (n : Num) : bool :=
  match n with
  | NInt z => (z <? 0)%Z
  | NFloat (Finite q) => Py.Qlt_bool q 0
  | NFloat NaN => false
  | NFloat (Infinity negative) => negative
  end.

Definition num_gt0 (n : Num) : bool :=
  match n with
  | NInt z => (0 <? z)%Z
  | NFloat (Finite q) => Py.Qlt_bool 0 q
  | NFloat NaN => false
  | NFloat (Infinity negative) => negb negative
  end.

Definition int_of_num (n : Num) : Outcome Z :=
  match n with
  | NInt z => Return z
  | NFloat f => int_of_float f
  end.

(** *** The methods *)

(** One entry of the result:
    [{"content_id": ..., "clicked": ..., "dwell_time": ...}]. *)
Record ContentResponse : Type := mkContentResponse {
  content_id : Json;
  clicked : bool;
  dwell_time : Z
}.

Definition default_response (content_id : Json) : ContentResponse :=
  mkContentResponse content_id false 0.

(** [_validate_response_count] (lines 88-94). *)
Definition _validate_response_count (responses : list Json) (expected_count : nat)
    : Outcome unit :=
  if Nat.eqb (length responses) expected_count then Return tt else Raise ValueError.

(** [_parse_single_response_for_all] (lines 237-277).  The [debug] log
    lines do not change the result and are left out; [content_id] is only
    used by them. *)
Definition _parse_single_response_for_all (response : gmap string Json)
    : Outcome (bool * Z) :=
  let clicked :=
    match dict_get_default response "clicked" (JBool false) with
    | JBool b => b
    | _ => false
    end in
  let dwell_time :=
    dict_get_default response "dwell_time_seconds"
      (dict_get_default response "dwell_time" (JInt 0)) in
  let dwell_time :=
    match as_number dwell_time with
    | Some n => if num_lt0 n then NInt 0 else n
    | None => NInt 0
    end in
  let dwell_time :=
    if negb clicked && num_gt0 dwell_time then NInt 0 else dwell_time in
  d ← int_of_num dwell_time;
  mret (clicked, d).

(** The body of the first loop of [_extract_all_content_responses]
    (lines 169-197), for the response at index [i].  The test
    [content_id is not None] on the result of [int()] always succeeds. *)
Definition extract_step (content_ids : list Json)
    (result : list ContentResponse) (i : nat) (resp : Json)
    : Outcome (list ContentResponse) :=
  match resp with
  | JDict d =>
      _ ← py_int (dict_get d "content_id");
      match content_ids !! i with
      | Some content_id =>
          '(clicked, dwell_time) ← _parse_single_response_for_all d;
          mret (result ++ [mkContentResponse content_id clicked dwell_time])
      | None => mret result
      end
  | _ =>
      match content_ids !! i with
      | Some content_id => mret (result ++ [default_response content_id])
      | None => mret result
      end
  end.

Fixpoint extract_loop (content_ids : list Json) (result : list ContentResponse)
    (i : nat) (responses : list Json) : Outcome (list ContentResponse) :=
  match responses with
  | [] => mret result
  | resp :: rest =>
      result ← extract_step content_ids result i resp;
      extract_loop content_ids result (S i) rest
  end.

(** [{int(resp["content_id"]) for resp in result}] (line 200). *)
Fixpoint response_content_ids (result : list ContentResponse) : Outcome (gset Z) :=
  match result with
  | [] => mret ∅
  | r :: rest =>
      z ← py_int (content_id r);
      s ← response_content_ids rest;
      mret ({[ z ]} ∪ s)
  end.

Definition is_integral (q : Q) : bool := Qeq_bool q (inject_Z (Qfloor q)).

(** [v in s] for a set [s] of ints: lists and dicts are unhashable; a
    number is found when it is equal to a member. *)
Definition in_int_set (v : Json) (s : gset Z) : Outcome bool :=
  match v with
  | JNull | JStr _ => Return false
  | JBool b => Return (bool_decide (Z.b2z b ∈ s))
  | JInt z => Return (bool_decide (z ∈ s))
  | JFloat (Finite q) => Return (is_integral q && bool_decide (Qfloor q ∈ s))
  | JFloat _ => Return false
  | JList _ | JDict _ => Raise TypeError
  end.

(** The second loop (lines 201-210): a default entry for every content
    whose id is not among the ids of the entries made so far. *)
Fixpoint add_missing (ids : gset Z) (result : list ContentResponse)
    (all_contents : list (gmap string Json)) : Outcome (list ContentResponse) :=
  match all_contents with
  | [] => mret result
  | content :: rest =>
      let content_id := dict_get content "id" in
      found ← in_int_set content_id ids;
      if found : bool then add_missing ids result rest
      else add_missing ids (result ++ [default_response content_id]) rest
  end.

(** [_extract_all_content_responses] (lines 166-218). *)
Definition _extract_all_content_responses (responses : list Json)
    (all_contents : list (gmap string Json)) : Outcome (list ContentResponse) :=
  let content_ids := map (λ content, dict_get content "id") all_contents in
  result ← extract_loop content_ids [] 0 responses;
  ids ← response_content_ids result;
  add_missing ids result all_contents.

(** Steps 2 and 3 of [extract_all_responses] (lines 142-145), on the
    responses that [_parse_json] returned: the count check, then the
    extraction. *)
Definition validate_and_extract (responses : list Json)
    (all_contents : list (gmap string Json)) : Outcome (list ContentResponse) :=
  _validate_response_count responses (length all_contents);;
  _extract_all_content_responses responses all_contents.

(** *** Inputs on which the extraction does not raise *)

(** A response that the first loop accepts: anything that is not an object,
    or an object whose [content_id] the builtin [int()] accepts and whose
    dwell time converts to an [int]. *)
Definition accepted_response (resp : Json) : Prop :=
  match resp with
  | JDict d =>
      (∃ z, py_int (dict_get d "content_id") = Return z)
      ∧ (∃ r, _parse_single_response_for_all d = Return r)
  | _ => True
  end.

(** A content whose [id] the builtin [int()] accepts. *)
Definition accepted_content (content : gmap string Json) : Prop :=
  ∃ z, py_int (dict_get content "id") = Return z.

(** The entry at a position is made from the response at that position:
    the parsed click and dwell time of an object, the default entry
    otherwise. *)
Definition entry_of_response (resp : Json) (c : Json) (r : ContentResponse) : Prop :=
  content_id r = c
  ∧ match resp with
    | JDict d => _parse_single_response_for_all d = Return (clicked r, dwell_time r)
    | _ => r = default_response c
    end.

End Handler.

(** ** Reference definitions for the statements *)

(** The next-state maximum of one record, in the words of the
    specification: the maximum of the target network over the record's own
    next-candidates, and 0.0 when it has none. *)
Definition max_next_value {Params : Type} `{!QNetwork Params}
    (θ_target : Params) (e : Experience) : Q :=
  match Py.np_max (own_values θ_target e) with
  | Some m => m
  | None => 0
  end.




(** A list is in descending key order. *)
Definition descending {A : Type} (key : A → Q) (l : list A) : Prop :=
  StronglySorted (λ x y, key y <= key x) l.

(** [l'] keeps the elements of equal key in the order they have in [l]: for
    every value [v], the elements whose key equals [v] are the same sequence
    in both. *)
Definition same_order_of_ties {A : Type} (key : A → Q) (l l' : list A) : Prop :=
  ∀ v : Q, List.filter (λ x, Qeq_bool (key x) v) l'
           = List.filter (λ x, Qeq_bool (key x) v) l.

(** *** Sequences of calls on one agent *)

Section Calls.
Context {Params OptState PyRng : Type}
  `{!QNetwork Params} `{!Optimizer Params OptState} `{!PyRandom PyRng}.
Local Abbreviation Agent := (Agent Params OptState).
Local Abbreviation World := (World Params OptState PyRng).
Local Abbreviation Checkpoint := (Checkpoint Params OptState).

(** The draw of [random.random()] that a selection makes in world [w] is
    not below epsilon: the selection exploits. *)
Definition exploits (w : World) : Prop :=
  Py.Qlt_bool (random (rng w)).1 (epsilon (agent w)) = false.

(** The calls that a training loop makes on the agent. *)
Inductive Call : Type :=
  | CallLearn
  | CallStore (e : Experience)
  | CallDecayEpsilon
  | CallSelectAction (user_state : State) (candidate_embs : list Emb)
  | CallSelectSlate (state : State) (candidate_embs : CandDict) (max_recs : Z).

(** The world after a call, whether it returned or raised. *)
Definition after_call (c : Call) (w : World) : World :=
  match c with
  | CallLearn => (run learn w).2
  | CallStore e =>
      (run (store (user_state e) (content_emb e) (reward e) (next_state e)
                  (next_cands_embs e) (done e)) w).2
  | CallDecayEpsilon => (run decay_epsilon w).2
  | CallSelectAction s cs => (run (select_action s cs) w).2
  | CallSelectSlate s cs k => (run (select_slate s cs k) w).2
  end.

Fixpoint after_calls (cs : list Call) (w : World) : World :=
  match cs with
  | [] => w
  | c :: cs' => after_calls cs' (after_call c w)
  end.

(** A synchronisation event: a learn-step that returned a loss and whose
    step counter, after the step, is a multiple of [update_freq]. *)
Definition is_sync (c : Call) (w : World) : bool :=
  match c with
  | CallLearn =>
      match run learn w with
      | (Return (Some _), w') =>
          (step_count (agent w') mod update_freq (agent w') =? 0)%Z
      | _ => false
      end
  | _ => false
  end.

(** The live parameters as they were at the last synchronisation event of
    a sequence of calls; [synced] is that value before the sequence. *)
Fixpoint last_synced (synced : Params) (cs : list Call) (w : World) : Params :=
  match cs with
  | [] => synced
  | c :: cs' =>
      let w' := after_call c w in
      last_synced (if is_sync c w then q_net (agent w') else synced) cs' w'
  end.

(** The new live parameters, optimizer state and loss of a training step
    of agent [a] on [batch] with loss kind [f]. *)
Definition trained (f : LossFn) (a : Agent) (batch : list Experience)
    : Params * OptState * Q :=
  let us := map user_state batch in
  let ce := map content_emb batch in
  let target := learn_targets (gamma a) (target_q_net a) batch in
  (opt_step f (optimizer a) (q_net a) us ce target,
   loss_value f (net_call (q_net a) us ce) target).

(** The agent after the parameter update and the synchronisation test. *)
Definition finish_step (f : LossFn) (a1 : Agent) (batch : list Experience)
    (g : PyRng) : Outcome (option Q) * World :=
  let '(θ', o', loss) := trained f a1 batch in
  let a2 := set_q_net θ' (set_optimizer o' a1) in
  if (update_freq a2 =? 0)%Z then (Raise ZeroDivisionError, mkWorld a2 g)
  else if (step_count a2 mod update_freq a2 =? 0)%Z
       then (Return (Some loss), mkWorld (set_target_q_net (q_net a2) a2) g)
       else (Return (Some loss), mkWorld a2 g).

(** A learn-step that returned a loss. *)
Definition learn_succeeds (w : World) : Prop :=
  ∃ loss w', run learn w = (Return (Some loss), w').

(** [n] learn-steps in a row, all of which returned a loss. *)
Fixpoint learns_succeed (n : nat) (w : World) : Prop :=
  match n with
  | O => True
  | S n' => learn_succeeds w ∧ learns_succeed n' (after_call CallLearn w)
  end.

(** [n] calls of [decay_epsilon]. *)
Definition decay_n (n : nat) (w : World) : World :=
  Nat.iter n (after_call CallDecayEpsilon) w.

(** The loss kinds that [learn] supports. *)
Definition supported_loss (loss_type : string) : Prop :=
  loss_type = "mse" ∨ loss_type = "smooth_l1".

End Calls.

(** ** Further promises of the random module *)

(** What the documentation promises of the two other draws:
    [randrange(n)] is an element of [range(n)] and raises on an empty range;
    [sample] chooses without replacement, so its result is a selection of
    elements of the population, each position used at most once. *)
Class PyDrawLaws (PyRng : Type) `{!PyRandom PyRng} : Prop := {
  randrange_range : ∀ n g, (0 < n)%Z →
    ∃ i g', randrange n g = Some (i, g') ∧ (0 ≤ i < n)%Z;
  randrange_empty : ∀ n g, (n ≤ 0)%Z → randrange n g = None;
  sample_submseteq : ∀ A (l : list A) k g b g',
    sample (A:=A) l k g = Some (b, g') → b ⊆+ l
}.

(** ** The response handler: parsing, fallbacks and the public method *)

(** [random.randint(a, b)]; a call that raises (an empty range) is [None]. *)
Class PyRandInt (PyRng : Type) : Type := {
  randint : Z → Z → PyRng → option (Z * PyRng)
}.

(** What the documentation of [randint] promises: for [a <= b] an integer
    [n] with [a <= n <= b]. *)
Class PyRandIntLaws (PyRng : Type) `{!PyRandInt PyRng} : Prop := {
  randint_range : ∀ a b g, (a ≤ b)%Z →
    ∃ n g', randint a b g = Some (n, g') ∧ (a ≤ n ≤ b)%Z
}.

(** [json.loads] of the standard library: the decoded value, or [None] for
    [JSONDecodeError]. *)
Class JsonDecoder : Type := {
  json_loads : string → option Handler.Json
}.

Module HandlerIO.
Import Handler.

(** The first substitution of [_parse_json] (line 50),
    [re.sub(r"^```(?:json)?\s*", "", text)]: an opening fence at the very
    start of the text, with its optional [json] tag and the whitespace after
    it. *)
Definition skip_json_tag (r : list ascii) : list ascii :=
  match r with
  | "j"%char :: "s"%char :: "o"%char :: "n"%char :: r' => r'
  | _ => r
  end.

Definition strip_open_fence (l : list ascii) : list ascii :=
  match l with
  | "`"%char :: "`"%char :: "`"%char :: r => lstrip (skip_json_tag r)
  | _ => l
  end.

(** The second substitution (line 51), [re.sub(r"\s*```$", "", text)]: a
    closing fence at the very end of the text, with the whitespace before
    it.  [$] also matches just before a final newline, which then stays. *)
Definition strip_close_fence (l : list ascii) : list ascii :=
  match reverse l with
  | "`"%char :: "`"%char :: "`"%char :: r => reverse (lstrip r)
  | "010"%char :: "`"%char :: "`"%char :: "`"%char :: r =>
      reverse (lstrip r) ++ ["010"%char]
  | _ => l
  end.

(** The text that [_parse_json] hands to [json.loads] (lines 47-51). *)
Definition unfenced (text : list ascii) : list ascii :=
  strip_close_fence (strip_open_fence (strip text)).

(** The characters of a string, as [len()] counts and a [for] loop yields
    them: strings are UTF-8 byte strings here, and a character starts at
    every byte that is not a continuation byte. *)
Definition is_continuation (c : ascii) : bool :=
  let n := nat_of_ascii c in Nat.leb 128 n && Nat.ltb n 192.

Fixpoint utf8_chars (l : list ascii) : list (list ascii) :=
  match l with
  | [] => []
  | c :: cs =>
      match utf8_chars cs with
      | (c' :: _) as ch :: rest =>
          if is_continuation c' then (c :: ch) :: rest else [c] :: ch :: rest
      | r => [c] :: r
      end
  end.

(** The items of a decoded value, as [len()] counts them and [enumerate]
    yields them; a value without a length raises [TypeError].  The items of
    an object are its keys; the handler treats every item that is not an
    object alike, so the order of the keys does not matter here. *)
Definition py_items (v : Json) : Outcome (list Json) :=
  match v with
  | JList l => Return l
  | JStr s =>
      Return (map (λ ch, JStr (string_of_list_ascii ch))
                  (utf8_chars (list_ascii_of_string s)))
  | JDict d => Return (map (λ kv, JStr kv.1) (map_to_list d))
  | _ => Raise TypeError
  end.

Section Methods.
Context {PyRng : Type} `{!PyRandom PyRng} `{!PyRandInt PyRng} `{!JsonDecoder}.

(** [_parse_json] (lines 47-74).  The [debug] log lines are left out. *)
Definition _parse_json (text : string) : Outcome Json :=
  let text := unfenced (list_ascii_of_string text) in
  match json_loads (string_of_list_ascii text) with
  | None => Raise ValueError
  | Some parsed =>
      match parsed with
      | JList _ => Return parsed
      | JDict d =>
          match d !! "responses" with
          | Some responses => Return responses
          | None => Raise ValueError
          end
      | _ => Raise ValueError
      end
  end.

(** [random.random()] and [random.randint(a, b)] as the handler calls
    them: its only state is the state of the generator. *)
Definition rand_random : Act PyRng Q :=
  mkAct (λ g, let '(u, g') := random g in (Return u, g')).

Definition rand_randint (a b : Z) : Act PyRng Z :=
  mkAct (λ g,
    match randint a b g with
    | Some (n, g') => (Return n, g')
    | None => (Raise ValueError, g)
    end).

(** [create_fallback_response] (lines 112-122). *)
Definition create_fallback_response (use_click_probability : Q)
    : Act PyRng (string * Z) :=
  u ← rand_random;
  let event_type :=
    if Py.Qlt_bool u use_click_probability then "CLICK" else "VIEW" in
  dwell_time ← (if String.eqb event_type "CLICK" then rand_randint 60 600
                else rand_randint 5 300);
  mret (event_type, dwell_time).

(** The loop of [_create_fallback_all_responses] (lines 289-300); 0.3 is
    the click probability. *)
Fixpoint fallback_loop (responses : list ContentResponse)
    (all_contents : list (gmap string Json)) : Act PyRng (list ContentResponse) :=
  match all_contents with
  | [] => mret responses
  | content :: rest =>
      u ← rand_random;
      let clicked := Py.Qlt_bool u 0.3 in
      dwell_time ← (if clicked then rand_randint 60 300 else mret 0%Z);
      fallback_loop
        (responses ++ [mkContentResponse (dict_get content "id") clicked dwell_time])
        rest
  end.

(** [_create_fallback_all_responses] (lines 288-310). *)
Definition _create_fallback_all_responses (all_contents : list (gmap string Json))
    : Act PyRng (list ContentResponse) :=
  fallback_loop [] all_contents.

(** The body of the [try] of [extract_all_responses] (lines 139-145). *)
Definition try_extract (llm_raw_text : string)
    (all_contents : list (gmap string Json)) : Outcome (list ContentResponse) :=
  parsed_responses ← _parse_json llm_raw_text;
  items ← py_items parsed_responses;
  validate_and_extract items all_contents.

(** [extract_all_responses] (lines 137-151): any exception of the body is
    caught and answered with the random fallback. *)
Definition extract_all_responses (llm_raw_text : string)
    (all_contents : list (gmap string Json)) : Act PyRng (list ContentResponse) :=
  match try_extract llm_raw_text all_contents with
  | Return result => mret result
  | Raise _ => _create_fallback_all_responses all_contents
  end.

End Methods.

(** *** Reference definitions for the statements *)

(** The dwell value that [_parse_single_response_for_all] reads. *)
Definition dwell_field (response : gmap string Json) : Json :=
  dict_get_default response "dwell_time_seconds"
    (dict_get_default response "dwell_time" (JInt 0)).

(** What the docstring of [_parse_single_response_for_all] promises of an
    entry: the dwell time is not negative, and it is 0 without a click. *)
Definition dwell_consistent (r : ContentResponse) : Prop :=
  (0 ≤ dwell_time r)%Z ∧ (clicked r = false → dwell_time r = 0%Z).

(** An ASCII character that is neither whitespace nor a backquote. *)
Definition plain (c : ascii) : Prop :=
  is_space c = false ∧ c ≠ "`"%char ∧ (nat_of_ascii c < 128)%nat.

(** A text that begins and ends with a plain character. *)
Definition bare (body : list ascii) : Prop :=
  (∃ c rest, body = c :: rest ∧ plain c)
  ∧ (∃ c rest, reverse body = c :: rest ∧ plain c).

Definition whitespace (l : list ascii) : Prop :=
  Forall (λ c, is_space c = true) l.

Definition fence : list ascii := list_ascii_of_string "```".

(** What the first substitution removes in front of [body]: nothing, or a
    fence, an optional [json] tag and whitespace.  A fence directly followed
    by a body that begins with [j] is left out: the tag could be taken from
    the body. *)
Definition opening_fence (l body : list ascii) : Prop :=
  l = []
  ∨ ∃ tag ws, l = fence ++ tag ++ ws ∧ whitespace ws
      ∧ (tag = list_ascii_of_string "json"
         ∨ (tag = [] ∧ (ws ≠ [] ∨ ∀ rest, body ≠ "j"%char :: rest))).

(** What the second substitution removes behind the body: nothing, or
    whitespace and a fence. *)
Definition closing_fence (l : list ascii) : Prop :=
  l = [] ∨ ∃ ws, l = ws ++ fence ∧ whitespace ws.

End HandlerIO.

(** ** Further definitions for the statements *)

Section Settings.
Context {Params OptState : Type}.

(** The attributes that no method but the constructor assigns. *)
Definition same_settings (a a' : Agent Params OptState) : Prop :=
  gamma a' = gamma a
  ∧ batch_size a' = batch_size a
  ∧ update_freq a' = update_freq a
  ∧ loss_type a' = loss_type a.

End Settings.

(** ** A small concrete instance

    A bilinear scorer with one weight, plain gradient descent, and a linear
    congruential generator: enough to run every method on concrete inputs. *)

Module Toy.

Definition dot (s c : list Q) : Q := fold_right Qplus 0 (zip_with Qmult s c).

#[export] Instance net : QNetwork Q := {|
  q_value := λ θ s c, θ * dot s c
|}.

#[export] Instance opt : Optimizer Q nat := {|
  opt_init := λ _ _, 0%nat;
  opt_step := λ _ o θ us ce target,
    let xs := zip_with dot us ce in
    let grad := Py.mean (zip_with (λ x t, (θ * x - t) * x) xs target) in
    (Qred (θ - (1 # 10) * grad), S o)
|}.

Definition lcg (g : Z) : Z := ((1103515245 * g + 12345) mod 2147483648)%Z.

Definition lcg_sample {A : Type} (l : list A) (k : Z) (g : Z) : option (list A * Z) :=
  if ((0 <=? k) && (k <=? Z.of_nat (length l)))%Z
  then Some (take (Z.to_nat k)
                  (rotate (Z.to_nat (lcg g mod Z.max 1 (Z.of_nat (length l)))) l),
             lcg g)
  else None.

#[export] Instance rand : PyRandom Z := {|
  random := λ g, (lcg g # 2147483648, lcg g);
  randrange := λ n g, if (0 <? n)%Z then Some ((lcg g mod n)%Z, lcg g) else None;
  sample := @lcg_sample
|}.

(** An experience with a one-dimensional state and candidates. *)
Definition exp (r : Q) (cands : CandDict) (d : bool) : Experience :=
  mkExperience [1] [1] r [1] cands d.

(** The batch of property P2 of the specification: record 0 has three
    next-candidates with values 0.1, 0.9 and 0.4 (under weight 1), record 1
    has none. *)
Definition batch_P2 : list Experience :=
  [ exp 1 [("A", [[0.1]; [0.9]]); ("B", [[0.4]])] false;
    exp 2 [] true ].

(** The candidates of property P5: values A:[0.2, 0.5], B:[0.9] under
    weight 1 and state [1]. *)
Definition cands_P5 : CandDict := [("A", [[0.2]; [0.5]]); ("B", [[0.9]])].

(** An agent as [__init__] builds it, then given a buffer and a loss type. *)
Definition agent0 (batch_size update_freq : Z) (loss_type : string)
    (records : list Experience) : Agent Q nat :=
  set_buffer (mkReplayBuffer 100 records)
    (__init__ (1 : Q) (1 # 100) batch_size 1 (1 # 10) (9 # 10) (9 # 10)
          update_freq 100 loss_type).

(** Worlds for the concrete runs: the buffer holds the two records of
    [batch_P2], the generator state is 7. *)

(** Batch size 3: the buffer is too small. *)
Definition w_small : World Q nat Z := mkWorld (agent0 3 1 "mse" batch_P2) 7%Z.
Definition w_small_l1 : World Q nat Z := mkWorld (agent0 3 1 "l1" batch_P2) 7%Z.

(** Batch size 2, with an unsupported loss kind. *)
Definition w_l1 : World Q nat Z := mkWorld (agent0 2 1 "l1" batch_P2) 7%Z.

(** Batch size 2, synchronising every second step. *)
Definition w_train : World Q nat Z := mkWorld (agent0 2 2 "mse" batch_P2) 7%Z.

(** Epsilon at zero. *)
Definition w_eps0 : World Q nat Z :=
  mkWorld (set_epsilon 0 (agent0 2 1 "mse" batch_P2)) 7%Z.

(** Epsilon 0.1 below its floor 0.5. *)
Definition w_low_eps : World Q nat Z :=
  mkWorld (set_epsilon 0.1 (set_epsilon_min 0.5 (agent0 2 1 "mse" batch_P2))) 7%Z.

(** A decay rate of 2, with epsilon 0.5 above its floor 0.1. *)
Definition w_growing : World Q nat Z :=
  mkWorld (set_epsilon 0.5 (set_epsilon_dec 2 (agent0 2 1 "mse" batch_P2))) 7%Z.

(** An agent that has made five learn-steps, and a blob without the step
    counter and without the two epsilon bounds. *)
Definition w_step5 : World Q nat Z :=
  mkWorld (set_step_count 5 (agent0 2 1 "mse" batch_P2)) 7%Z.
Definition ck_no_step : Checkpoint Q nat :=
  mkCheckpoint (Some (2 : Q)) (Some (3 : Q)) (Some 4%nat) None (Some 0.5) None None.

(** Two responses for two contents: an object whose [content_id] is 99, and
    a response that is not an object. *)
Definition responses_99 : list Handler.Json :=
  [ Handler.JDict (<["content_id" := Handler.JInt 99]>
                     (<["clicked" := Handler.JBool true]>
                        {["dwell_time" := Handler.JInt 30]}));
    Handler.JInt 3 ].
Definition contents_78 : list (gmap string Handler.Json) :=
  [ {["id" := Handler.JInt 7]}; {["id" := Handler.JInt 8]} ].

(** One response without a [content_id], for one content. *)
Definition responses_no_id : list Handler.Json :=
  [ Handler.JDict {["clicked" := Handler.JBool true]} ].
Definition contents_7 : list (gmap string Handler.Json) :=
  [ {["id" := Handler.JInt 7]} ].

(** [randint] from the same generator, and a decoder that knows three
    texts: [R] is the list [responses_99], [W] is that list wrapped in an
    object under the key [responses], [N] is the list [responses_no_id]. *)
#[export] Instance randi : PyRandInt Z := {|
  randint := λ a b g,
    if (a <=? b)%Z then Some ((a + lcg g mod (b - a + 1))%Z, lcg g) else None
|}.

Definition toy_loads (s : string) : option Handler.Json :=
  if String.eqb s "R" then Some (Handler.JList responses_99)
  else if String.eqb s "W"
       then Some (Handler.JDict {["responses" := Handler.JList responses_99]})
  else if String.eqb s "N" then Some (Handler.JList responses_no_id)
  else None.

#[export] Instance decoder : JsonDecoder := {| json_loads := toy_loads |}.

(** The text [R] inside a markdown fence with a [json] tag. *)
Definition fenced_R : list ascii :=
  list_ascii_of_string "```json" ++ ["010"%char]
  ++ list_ascii_of_string "R" ++ ["010"%char] ++ list_ascii_of_string "```".

(** Contents whose ids are the strings [7] and [8]. *)
Definition contents_str : list (gmap string Handler.Json) :=
  [ {["id" := Handler.JStr "7"]}; {["id" := Handler.JStr "8"]} ].

(** Three contents with the ids 7, 8 and 9, and a content without an id. *)
Definition contents_789 : list (gmap string Handler.Json) :=
  [ {["id" := Handler.JInt 7]}; {["id" := Handler.JInt 8]};
    {["id" := Handler.JInt 9]} ].
Definition contents_no_id : list (gmap string Handler.Json) :=
  [ {["id" := Handler.JInt 7]}; {["title" := Handler.JStr "x"]} ].

(** A clicked response whose dwell time is 12.7 seconds, and one that is
    not clicked and reports 40 seconds. *)
Definition resp_clicked : gmap string Handler.Json :=
  <["clicked" := Handler.JBool true]>
    {["dwell_time_seconds" := Handler.JFloat (Handler.Finite 12.7)]}.
Definition resp_not_clicked : gmap string Handler.Json :=
  <["clicked" := Handler.JBool false]> {["dwell_time" := Handler.JInt 40]}.
Definition resp_nan : gmap string Handler.Json :=
  {["dwell_time" := Handler.JFloat Handler.NaN]}.

(** An update period of zero; an agent that always explores; a blob
    without target parameters; a dict whose candidate lists are all empty. *)
Definition w_no_sync : World Q nat Z := mkWorld (agent0 2 0 "mse" batch_P2) 7%Z.
Definition w_explore : World Q nat Z :=
  mkWorld (set_epsilon 1 (agent0 2 1 "mse" batch_P2)) 7%Z.
Definition ck_no_target : Checkpoint Q nat :=
  mkCheckpoint (Some (2 : Q)) None (Some 4%nat) None None None None.
Definition cands_none : CandDict := [("A", []); ("B", [])].

(** The generator keeps the promises of [PyRandomLaws]. *)

Lemma lcg_range g : (0 ≤ lcg g < 2147483648)%Z.
Proof. unfold lcg. apply Z.mod_pos_bound. lia. Qed.

Lemma lcg_random_unit g :
  0 <= (lcg g # 2147483648) ∧ (lcg g # 2147483648) < 1.
Proof.
  pose proof (lcg_range g) as Hr.
  unfold Qle, Qlt. simpl. lia.
Qed.

Lemma lcg_sample_defined A (l : list A) k g :
  is_Some (lcg_sample l k g) ↔ (0 ≤ k ≤ Z.of_nat (length l))%Z.
Proof.
  unfold lcg_sample.
  destruct (0 <=? k)%Z eqn:E1, (k <=? Z.of_nat (length l))%Z eqn:E2; simpl;
    split; intros Hs; try (by eexists); try (destruct Hs; discriminate); lia.
Qed.

Lemma lcg_sample_length A (l : list A) k g b g' :
  lcg_sample l k g = Some (b, g') → Z.of_nat (length b) = k.
Proof.
  unfold lcg_sample.
  destruct (0 <=? k)%Z eqn:E1, (k <=? Z.of_nat (length l))%Z eqn:E2; simpl;
    intros Hs; try discriminate.
  injection Hs as <- _.
  rewrite length_take, length_rotate. lia.
Qed.

#[export] Instance rand_laws : PyRandomLaws Z := {|
  random_unit := lcg_random_unit;
  sample_defined := lcg_sample_defined;
  sample_length := lcg_sample_length
|}.

Lemma randi_range (a b g : Z) :
  (a ≤ b)%Z →
  ∃ n g', randint a b g = Some (n, g') ∧ (a ≤ n ≤ b)%Z.
Proof.
  intros Hab. simpl. destruct (Z.leb_spec a b) as [_|Hlt]; [|lia].
  eexists _, _. split; [done|].
  pose proof (Z.mod_pos_bound (lcg g) (b - a + 1)). lia.
Qed.

#[export] Instance randi_laws : PyRandIntLaws Z := {|
  randint_range := randi_range
|}.

Lemma lcg_randrange_range (n g : Z) :
  (0 < n)%Z → ∃ i g', randrange n g = Some (i, g') ∧ (0 ≤ i < n)%Z.
Proof.
  intros Hn. simpl. destruct (Z.ltb_spec 0 n) as [_|Hle]; [|lia].
  eexists _, _. split; [done|]. apply Z.mod_pos_bound. lia.
Qed.

Lemma lcg_randrange_empty (n g : Z) : (n ≤ 0)%Z → randrange n g = None.
Proof. intros Hn. simpl. destruct (Z.ltb_spec 0 n) as [Hlt|_]; [lia|done]. Qed.

Lemma lcg_sample_submseteq A (l : list A) k g b g' :
  lcg_sample l k g = Some (b, g') → b ⊆+ l.
Proof.
  unfold lcg_sample.
  destruct ((0 <=? k) && (k <=? Z.of_nat (length l)))%Z; [|done].
  intros [= <- _].
  transitivity (rotate (Z.to_nat (lcg g mod Z.max 1 (Z.of_nat (length l)))) l).
  - apply sublist_submseteq, sublist_take.
  - apply Permutation_submseteq. unfold rotate.
    rewrite Permutation_app_comm. by rewrite take_drop.
Qed.

#[export] Instance draw_laws : PyDrawLaws Z := {|
  randrange_range := lcg_randrange_range;
  randrange_empty := lcg_randrange_empty;
  sample_submseteq := lcg_sample_submseteq
|}.

End Toy.

(** * Properties *)

(** ** The Python primitives *)

Module PyFacts.
Import Py.

Lemma Qlt_bool_true a b : Qlt_bool a b = true ↔ a < b.
Proof.
  unfold Qlt_bool. rewrite negb_true_iff.
  split.
  - intros Hf. apply Qnot_le_lt. intros Hle.
    apply Qle_bool_iff in Hle. congruence.
  - intros Hlt. destruct (Qle_bool b a) eqn:E; [|done].
    apply Qle_bool_iff in E. lra.
Qed.

Lemma Qlt_bool_false a b : Qlt_bool a b = false ↔ b <= a.
Proof.
  unfold Qlt_bool. rewrite negb_false_iff. apply Qle_bool_iff.
Qed.

Lemma max2_cases a b :
  (max2 a b = a ∧ b <= a) ∨ (max2 a b = b ∧ a < b).
Proof.
  unfold max2. destruct (Qlt_bool a b) eqn:E.
  - right. apply Qlt_bool_true in E. done.
  - left. apply Qlt_bool_false in E. done.
Qed.

Lemma max2_ge_r a b : b <= max2 a b.
Proof. destruct (max2_cases a b) as [[-> ?]|[-> ?]]; lra. Qed.





(** The scan of [argmax]: if the best entry so far is a first maximum of
    the entries before position [length pre], the result is a first
    maximum of the whole tensor. *)
Lemma argmax_from_spec l : ∀ (pre : list Q) best_i best_v,
  pre !! best_i = Some best_v →
  (∀ j v, pre !! j = Some v → v <= best_v) →
  (∀ j v, (j < best_i)%nat → pre !! j = Some v → v < best_v) →
  let r := argmax_from best_i best_v (length pre) l in
  ∃ m, (pre ++ l) !! r = Some m
       ∧ (∀ j v, (pre ++ l) !! j = Some v → v <= m)
       ∧ (∀ j v, (j < r)%nat → (pre ++ l) !! j = Some v → v < m).
Proof.
  induction l as [|x xs IH]; intros pre best_i best_v Hb Hmax Hfirst; simpl.
  - rewrite app_nil_r. eauto.
  - assert (Hlen : length (pre ++ [x]) = S (length pre))
      by (rewrite length_app; simpl; lia).
    destruct (Qlt_bool best_v x) eqn:E.
    + apply Qlt_bool_true in E.
      specialize (IH (pre ++ [x]) (length pre) x).
      rewrite Hlen, <- (assoc_L (++)) in IH. simpl in IH.
      apply IH.
      * rewrite lookup_app_r by lia. by rewrite Nat.sub_diag.
      * intros j v Hj. apply lookup_app_Some in Hj as [Hj|[_ Hj]].
        -- apply Hmax in Hj. lra.
        -- destruct (j - length pre)%nat; simpl in Hj; [|done].
           injection Hj as <-. lra.
      * intros j v Hlt Hj. rewrite lookup_app_l in Hj by lia.
        apply Hmax in Hj. lra.
    + apply Qlt_bool_false in E.
      specialize (IH (pre ++ [x]) best_i best_v).
      rewrite Hlen, <- (assoc_L (++)) in IH. simpl in IH.
      apply IH.
      * apply lookup_app_l_Some. done.
      * intros j v Hj. apply lookup_app_Some in Hj as [Hj|[_ Hj]].
        -- by apply (Hmax j).
        -- destruct (j - length pre)%nat; simpl in Hj; [|done].
           injection Hj as <-. lra.
      * intros j v Hlt Hj.
        apply lookup_lt_Some in Hb.
        rewrite lookup_app_l in Hj by lia. by apply (Hfirst j).
Qed.

(** [torch.argmax] of a non-empty tensor: an index of the tensor, whose
    entry is a maximum, and no earlier entry is as large. *)
Lemma argmax_spec (l : list Q) :
  l ≠ [] →
  ∃ i m, argmax l = Some i
         ∧ l !! i = Some m
         ∧ (∀ j v, l !! j = Some v → v <= m)
         ∧ (∀ j v, (j < i)%nat → l !! j = Some v → v < m).
Proof.
  destruct l as [|x xs]; [done|]. intros _. simpl.
  destruct (argmax_from_spec xs [x] 0%nat x) as (m & Hm & Hall & Hfirst).
  - done.
  - intros [|j] v Hj; simpl in Hj; [|done]. injection Hj as <-. lra.
  - intros j v Hlt. lia.
  - exists (argmax_from 0 x 1 xs), m. done.
Qed.

Lemma argmax_None l : argmax l = None ↔ l = [].
Proof. destruct l; simpl; split; done. Qed.

(** *** The stable descending sort *)

Section Sort.
Context {A : Type} (key : A → Q).

Lemma insert_desc_perm x l : insert_desc key x l ≡ₚ x :: l.
Proof.
  induction l as [|y ys IH]; simpl; [done|].
  destruct (Qlt_bool (key x) (key y)); [|done].
  rewrite IH. apply Permutation_swap.
Qed.

Lemma sort_desc_perm l : sort_desc key l ≡ₚ l.
Proof.
  induction l as [|x xs IH]; simpl; [done|].
  rewrite insert_desc_perm. by rewrite IH.
Qed.

Lemma sort_desc_length l : length (sort_desc key l) = length l.
Proof. apply Permutation_length, sort_desc_perm. Qed.

Lemma insert_desc_descending x l :
  descending key l → descending key (insert_desc key x l).
Proof.
  unfold descending.
  induction l as [|y ys IH]; intros Hs; simpl.
  - repeat constructor.
  - apply StronglySorted_inv in Hs as [Hys Hy].
    destruct (Qlt_bool (key x) (key y)) eqn:E.
    + apply Qlt_bool_true in E.
      constructor; [by apply IH|].
      rewrite insert_desc_perm. constructor; [lra|done].
    + apply Qlt_bool_false in E.
      constructor; [by constructor|].
      constructor; [done|].
      eapply Forall_impl; [exact Hy|]. simpl. intros z Hz. lra.
Qed.

Lemma sort_desc_descending l : descending key (sort_desc key l).
Proof.
  induction l as [|x xs IH]; simpl.
  - constructor.
  - by apply insert_desc_descending.
Qed.

Lemma insert_desc_ties x l v :
  List.filter (λ z, Qeq_bool (key z) v) (insert_desc key x l)
  = List.filter (λ z, Qeq_bool (key z) v) (x :: l).
Proof.
  induction l as [|y ys IH]; [done|].
  simpl insert_desc.
  destruct (Qlt_bool (key x) (key y)) eqn:E; [|done].
  apply Qlt_bool_true in E.
  change (List.filter ?f (y :: ?t))
    with (if f y then y :: List.filter f t else List.filter f t).
  rewrite IH. simpl.
  destruct (Qeq_bool (key x) v) eqn:Ex, (Qeq_bool (key y) v) eqn:Ey; try done.
  apply Qeq_bool_iff in Ex, Ey. lra.
Qed.

Lemma sort_desc_ties l : same_order_of_ties key l (sort_desc key l).
Proof.
  intros v. induction l as [|x xs IH]; [done|].
  simpl sort_desc. rewrite insert_desc_ties. simpl. by rewrite IH.
Qed.

End Sort.

Lemma slice_to_nonneg {A : Type} (l : list A) (k : Z) :
  (0 ≤ k)%Z → slice_to l k = take (Z.to_nat k) l.
Proof.
  intros Hk. unfold slice_to.
  destruct (0 <=? k)%Z eqn:E; [done|]. lia.
Qed.

End PyFacts.

(** ** The batched target computation of [learn] *)

Section TargetFacts.
Context {Params : Type} `{!QNetwork Params}.

Lemma zip_map_map {A B C : Type} (f : A → B) (g : A → C) (l : list A) :
  zip (map f l) (map g l) = map (λ x, (f x, g x)) l.
Proof. induction l as [|x xs IH]; simpl; [done|]. by rewrite IH. Qed.

Lemma zip_with_replicate_map {A B C : Type} (f : A → B → C) (x : A) (k : list B) :
  zip_with f (replicate (length k) x) k = map (f x) k.
Proof. induction k as [|y ys IH]; simpl; [done|]. by rewrite IH. Qed.

(** The inner loop appends one triple per candidate. *)
Lemma fold_flat_append i ns embs : ∀ w,
  fold_left (flat_append i ns) embs w
  = mkFlatWork (flat_states w ++ replicate (length embs) ns)
               (flat_cands w ++ embs)
               (batch_indices w ++ replicate (length embs) i).
Proof.
  induction embs as [|c cs IH]; intros w; simpl.
  - destruct w; simpl. by rewrite !app_nil_r.
  - rewrite IH. simpl. by rewrite <- !(assoc_L (++)).
Qed.

(** The work lists after the outer loop: the records' segments, in batch
    order, each tagged with the record's own index. *)
Lemma fold_flat_record batch : ∀ k w,
  fold_left flat_record
    (zip (seq k (length batch))
         (map (λ e, (next_state e, next_cands_embs e)) batch)) w
  = mkFlatWork
      (flat_states w
       ++ concat (map (λ e, replicate (length (all_embs (next_cands_embs e)))
                                      (next_state e)) batch))
      (flat_cands w ++ concat (map (λ e, all_embs (next_cands_embs e)) batch))
      (batch_indices w
       ++ concat (zip_with (λ i e, replicate (length (all_embs (next_cands_embs e))) i)
                           (seq k (length batch)) batch)).
Proof.
  induction batch as [|e es IH]; intros k w; simpl.
  - destruct w; simpl. by rewrite !app_nil_r.
  - rewrite IH, fold_flat_append. simpl. by rewrite <- !(assoc_L (++)).
Qed.

Lemma flatten_next_batch batch :
  flatten_next (map next_state batch) (map next_cands_embs batch)
  = mkFlatWork
      (concat (map (λ e, replicate (length (all_embs (next_cands_embs e)))
                                   (next_state e)) batch))
      (concat (map (λ e, all_embs (next_cands_embs e)) batch))
      (concat (zip_with (λ i e, replicate (length (all_embs (next_cands_embs e))) i)
                        (seq 0 (length batch)) batch)).
Proof.
  unfold flatten_next, Py.enumerate.
  rewrite zip_map_map, length_map.
  by rewrite fold_flat_record.
Qed.

(** One batched call over the flat lists gives, segment by segment, the
    values of each record's candidates against that record's next state. *)
Lemma net_call_segments θ batch :
  net_call θ
    (concat (map (λ e, replicate (length (all_embs (next_cands_embs e)))
                                 (next_state e)) batch))
    (concat (map (λ e, all_embs (next_cands_embs e)) batch))
  = concat (map (own_values θ) batch).
Proof.
  unfold net_call. induction batch as [|e es IH]; simpl; [done|].
  rewrite zip_with_app by (by rewrite length_replicate).
  by rewrite IH, zip_with_replicate_map.
Qed.

Lemma mask_select_app {A : Type} (v1 v2 : list A) (m1 m2 : list bool) :
  length v1 = length m1 →
  Py.mask_select (v1 ++ v2) (m1 ++ m2)
  = Py.mask_select v1 m1 ++ Py.mask_select v2 m2.
Proof.
  revert m1. induction v1 as [|v vs IH]; intros [|b bs] Hlen;
    simpl in *; try done.
  destruct b; simpl; rewrite IH by lia; done.
Qed.

Lemma mask_select_const {A : Type} (vs : list A) (b : bool) :
  Py.mask_select vs (replicate (length vs) b) = if b then vs else [].
Proof.
  induction vs as [|v vs IH]; simpl; [by destruct b|].
  rewrite IH. by destruct b.
Qed.

Lemma map_replicate {A B : Type} (f : A → B) n (x : A) :
  map f (replicate n x) = replicate n (f x).
Proof. induction n as [|n IH]; simpl; [done|]. by rewrite IH. Qed.

(** Selecting with the mask [batch_indices == i]: nothing of the records
    that come after [i] ... *)
Lemma mask_select_later (segs : list (list Q)) : ∀ k i,
  (i < k)%nat →
  Py.mask_select (concat segs)
    (map (λ b, Nat.eqb b i)
         (concat (zip_with (λ j s, replicate (length s) j)
                           (seq k (length segs)) segs)))
  = [].
Proof.
  induction segs as [|s ss IH]; intros k i Hlt; simpl; [done|].
  rewrite map_app, mask_select_app
    by (by rewrite length_map, length_replicate).
  rewrite map_replicate, mask_select_const.
  destruct (Nat.eqb_spec k i) as [->|_]; [lia|].
  simpl. apply IH. lia.
Qed.

(** ... and exactly the segment of record [i] itself. *)
Lemma mask_select_segment (segs : list (list Q)) : ∀ k i,
  (k ≤ i)%nat →
  Py.mask_select (concat segs)
    (map (λ b, Nat.eqb b i)
         (concat (zip_with (λ j s, replicate (length s) j)
                           (seq k (length segs)) segs)))
  = default [] (segs !! (i - k)%nat).
Proof.
  induction segs as [|s ss IH]; intros k i Hle; simpl; [done|].
  rewrite map_app, mask_select_app
    by (by rewrite length_map, length_replicate).
  rewrite map_replicate, mask_select_const.
  destruct (Nat.eqb_spec k i) as [->|Hne].
  - rewrite Nat.sub_diag. simpl.
    rewrite mask_select_later by lia. by rewrite app_nil_r.
  - simpl. rewrite IH by lia.
    replace (i - k)%nat with (S (i - S k)) by lia. done.
Qed.

Lemma zip_with_segments_map {A : Type} (f : A → list Q) (g : A → nat)
    (l : list A) : ∀ k,
  (∀ x, length (f x) = g x) →
  zip_with (λ (j : nat) x, replicate (g x) j) (seq k (length l)) l
  = zip_with (λ (j : nat) s, replicate (length s) j)
             (seq k (length (map f l))) (map f l).
Proof.
  intros k Hfg. revert k. induction l as [|x xs IH]; intros k; simpl; [done|].
  by rewrite IH, Hfg.
Qed.

(** The per-record maxima that [learn] computes are the maxima over each
    record's own values. *)
Lemma max_next_q_own θ batch :
  max_next_q θ (map next_state batch) (map next_cands_embs batch)
  = map (max_next_value θ) batch.
Proof.
  unfold max_next_q. rewrite flatten_next_batch. simpl.
  destruct (concat (map (λ e, replicate (length (all_embs (next_cands_embs e)))
                                        (next_state e)) batch))
    as [|s0 rest] eqn:Hflat.
  - (* the work list is empty: every record has no candidate *)
    rewrite length_map.
    apply concat_nil_Forall in Hflat.
    clear -Hflat. induction batch as [|e es IH]; simpl; [done|].
    simpl in Hflat. apply Forall_cons in Hflat as [He Hes].
    rewrite IH by done. f_equal.
    unfold max_next_value, own_values.
    destruct (all_embs (next_cands_embs e)); [done|discriminate].
  - rewrite <- Hflat, net_call_segments, length_map.
    rewrite (zip_with_segments_map (own_values θ))
      by (intros e; unfold own_values; by rewrite length_map).
    apply list_eq. intros i.
    rewrite !list_lookup_fmap.
    destruct (decide (i < length batch)%nat) as [Hi|Hi].
    + rewrite lookup_seq_lt by done. simpl.
      rewrite mask_select_segment by lia.
      rewrite Nat.sub_0_r, list_lookup_fmap.
      destruct (batch !! i) as [e|] eqn:He; simpl; [done|].
      apply lookup_ge_None in He. lia.
    + rewrite lookup_seq_ge by lia.
      rewrite lookup_ge_None_2 by lia. done.
Qed.

Lemma targets_of_batch gamma (f g h : Experience → Q) batch :
  targets_of gamma (map f batch) (map g batch) (map h batch)
  = map (λ e, bootstrap gamma (f e) (g e) (h e)) batch.
Proof.
  unfold targets_of. induction batch as [|e es IH]; simpl; [done|].
  by rewrite IH.
Qed.

Lemma learn_targets_own gamma θ batch :
  learn_targets gamma θ batch
  = map (λ e, reward e + gamma * max_next_value θ e
                         * (1 - Py.float_of_bool (done e))) batch.
Proof.
  unfold learn_targets. rewrite max_next_q_own.
  rewrite (map_map done Py.float_of_bool).
  by rewrite targets_of_batch.
Qed.






End TargetFacts.

(** ** The learn-step *)

Section LearnFacts.
Context {Params OptState PyRng : Type}
  `{!QNetwork Params} `{!Optimizer Params OptState} `{!PyRandom PyRng}.
Context `{!PyRandomLaws PyRng}.
Local Abbreviation Agent := (Agent Params OptState).
Local Abbreviation World := (World Params OptState PyRng).
Local Abbreviation Checkpoint := (Checkpoint Params OptState).

(** [learn], path by path. *)
Lemma run_learn (w : World) :
  run learn w
  = let a := agent w in
    if (buffer_len (buffer a) <? batch_size a)%Z then (Return None, w)
    else
      let a1 := set_step_count (step_count a + 1) a in
      match sample (records (buffer a)) (batch_size a) (rng w) with
      | None => (Raise SampleError, mkWorld a1 (rng w))
      | Some (batch, g) =>
          if String.eqb (loss_type a) "mse" then finish_step MSE a1 batch g
          else if String.eqb (loss_type a) "smooth_l1"
               then finish_step SmoothL1 a1 batch g
               else (Raise (UnsupportedLossType (loss_type a)), mkWorld a1 g)
      end.
Proof.
  destruct w as [a g0]. unfold learn. simpl.
  destruct (buffer_len (buffer a) <? batch_size a)%Z; [done|]. simpl.
  unfold buffer_sample.
  destruct (sample (records (buffer a)) (batch_size a) g0) as [[batch g]|];
    [|done].
  simpl. unfold select_loss, finish_step, trained.
  destruct (String.eqb (loss_type a) "mse").
  - simpl.
    destruct (opt_step MSE _ _ _ _ _) as [θ' o']. simpl.
    destruct (update_freq a =? 0)%Z; [done|]. simpl.
    destruct (_ mod _ =? 0)%Z; done.
  - destruct (String.eqb (loss_type a) "smooth_l1"); [|done].
    simpl.
    destruct (opt_step SmoothL1 _ _ _ _ _) as [θ' o']. simpl.
    destruct (update_freq a =? 0)%Z; [done|]. simpl.
    destruct (_ mod _ =? 0)%Z; done.
Qed.

Lemma supported_loss_eqb s :
  supported_loss s ↔ String.eqb s "mse" || String.eqb s "smooth_l1" = true.
Proof.
  unfold supported_loss. rewrite orb_true_iff, !String.eqb_eq. done.
Qed.

(** [finish_step] never raises the loss-kind error, and leaves the step
    counter, the update period and, unless it synchronises, the target
    parameters as they are. *)
Lemma finish_step_spec f (a1 : Agent) batch (g : PyRng) out (w' : World) :
  finish_step f a1 batch g = (out, w') →
  (∀ s, out ≠ Raise (UnsupportedLossType s))
  ∧ step_count (agent w') = step_count a1
  ∧ update_freq (agent w') = update_freq a1
  ∧ (match out with
     | Return (Some _) =>
         if (step_count a1 mod update_freq a1 =? 0)%Z
         then target_q_net (agent w') = q_net (agent w')
         else target_q_net (agent w') = target_q_net a1
     | _ => target_q_net (agent w') = target_q_net a1
     end).
Proof.
  unfold finish_step.
  destruct (trained f a1 batch) as [[θ' o'] loss]. simpl.
  destruct (update_freq a1 =? 0)%Z.
  - intros [= <- <-]. simpl. done.
  - destruct (step_count a1 mod update_freq a1 =? 0)%Z eqn:E;
      intros [= <- <-]; simpl; done.
Qed.

(** C5.  When the buffer holds fewer than [batch_size] records, [learn]
    returns [None] and leaves the whole world as it was: the step counter,
    epsilon, the live and the target parameters and the optimizer state are
    unchanged, and the random generator has not been used, so no batch was
    sampled; nothing is raised. *)
Theorem learn_noop_below_batch_size (w : World) :
  (buffer_len (buffer (agent w)) < batch_size (agent w))%Z →
  run learn w = (Return None, w).
Proof.
  intros Hlt. rewrite run_learn. simpl.
  apply Z.ltb_lt in Hlt. by rewrite Hlt.
Qed.

(** What is known when [learn] has raised the loss-kind error. *)
Lemma learn_loss_error_inv (w w' : World) (s : string) :
  run learn w = (Raise (UnsupportedLossType s), w') →
  agent w' = set_step_count (step_count (agent w) + 1) (agent w)
  ∧ s = loss_type (agent w)
  ∧ ¬ supported_loss (loss_type (agent w))
  ∧ (batch_size (agent w) ≤ buffer_len (buffer (agent w)))%Z
  ∧ is_Some (sample (records (buffer (agent w))) (batch_size (agent w)) (rng w)).
Proof.
  rewrite run_learn. simpl.
  destruct (buffer_len (buffer (agent w)) <? batch_size (agent w))%Z eqn:Elen;
    [done|].
  apply Z.ltb_ge in Elen.
  destruct (sample _ _ _) as [[batch g]|]; [|done].
  destruct (String.eqb (loss_type (agent w)) "mse") eqn:E1.
  { intros Hf. destruct (finish_step_spec _ _ _ _ _ _ Hf) as [Hne _].
    by destruct (Hne s). }
  destruct (String.eqb (loss_type (agent w)) "smooth_l1") eqn:E2.
  { intros Hf. destruct (finish_step_spec _ _ _ _ _ _ Hf) as [Hne _].
    by destruct (Hne s). }
  intros [= <- <-]. simpl.
  split; [done|]. split; [done|]. split.
  - rewrite supported_loss_eqb, E1, E2. done.
  - split; [done|]. by eexists.
Qed.

(** C10.  When [learn] raises the loss-kind error, the agent it leaves
    behind is the agent before the call with the step counter incremented
    by one (nothing else differs), so the agent has changed: the failing
    call is not atomic.  It raises that error only with the buffer at or
    above the batch size and an unsupported loss kind. *)
Theorem learn_unsupported_loss_not_atomic (w w' : World) (s : string) :
  run learn w = (Raise (UnsupportedLossType s), w') →
  agent w' = set_step_count (step_count (agent w) + 1) (agent w)
  ∧ step_count (agent w') = (step_count (agent w) + 1)%Z
  ∧ agent w' ≠ agent w
  ∧ (batch_size (agent w) ≤ buffer_len (buffer (agent w)))%Z
  ∧ ¬ supported_loss (loss_type (agent w)).
Proof.
  intros Hrun.
  destruct (learn_loss_error_inv _ _ _ Hrun) as (Ha & _ & Hunsup & Hfull & _).
  split; [done|]. rewrite Ha. simpl. split; [done|]. split; [|done].
  intros Heq. apply (f_equal step_count) in Heq. simpl in Heq. lia.
Qed.

(** C8, as the code has it.  The constructor stores any loss kind without
    checking it.  For a batch size that is not negative, [learn] raises the
    loss-kind error exactly when the loss kind is unsupported and the buffer
    holds at least [batch_size] records; below the batch size it returns
    [None] whatever the loss kind is. *)
Theorem learn_raises_iff_unsupported_and_full (w : World) :
  (0 ≤ batch_size (agent w))%Z →
  ((∃ s w', run learn w = (Raise (UnsupportedLossType s), w'))
   ↔ (¬ supported_loss (loss_type (agent w))
      ∧ (batch_size (agent w) ≤ buffer_len (buffer (agent w)))%Z))
  ∧ ((buffer_len (buffer (agent w)) < batch_size (agent w))%Z →
     run learn w = (Return None, w))
  ∧ (∀ θ0 lr bs e0 emin edec γ uf cap lt,
       loss_type (__init__ θ0 lr bs e0 emin edec γ uf cap lt) = lt).
Proof.
  intros Hbs.
  split; [|split; [|done]].
  2:{ intros Hlt. rewrite run_learn. simpl.
      apply Z.ltb_lt in Hlt. by rewrite Hlt. }
  split.
  - intros (s & w' & Hrun).
    destruct (learn_loss_error_inv _ _ _ Hrun) as (_ & _ & Hunsup & Hfull & _).
    done.
  - intros (Hunsup & Hfull).
    rewrite run_learn. simpl.
    destruct (buffer_len (buffer (agent w)) <? batch_size (agent w))%Z eqn:Elen.
    { apply Z.ltb_lt in Elen. lia. }
    destruct (sample (records (buffer (agent w))) (batch_size (agent w)) (rng w))
      as [[batch g]|] eqn:Es.
    + rewrite supported_loss_eqb in Hunsup.
      destruct (String.eqb (loss_type (agent w)) "mse"); [by destruct Hunsup|].
      destruct (String.eqb (loss_type (agent w)) "smooth_l1");
        [by destruct Hunsup|].
      eauto.
    + assert (Hs : is_Some (sample (records (buffer (agent w)))
                                   (batch_size (agent w)) (rng w))).
      { apply sample_defined. unfold buffer_len in Hfull. lia. }
      rewrite Es in Hs. by destruct Hs.
Qed.

(** A learn-step that returns a loss has drawn a batch and finished a
    training step of one of the two loss kinds on it. *)
Lemma learn_returns_inv (w : World) loss (w' : World) :
  run learn w = (Return (Some loss), w') →
  ∃ f batch g,
    sample (records (buffer (agent w))) (batch_size (agent w)) (rng w)
    = Some (batch, g)
    ∧ finish_step f (set_step_count (step_count (agent w) + 1) (agent w)) batch g
      = (Return (Some loss), w').
Proof.
  rewrite run_learn. cbv zeta.
  destruct (buffer_len (buffer (agent w)) <? batch_size (agent w))%Z; [done|].
  destruct (sample _ _ _) as [[batch g]|]; [|done].
  destruct (String.eqb (loss_type (agent w)) "mse").
  { intros Hrun. by exists MSE, batch, g. }
  destruct (String.eqb (loss_type (agent w)) "smooth_l1"); [|done].
  intros Hrun. by exists SmoothL1, batch, g.
Qed.

(** What a finished training step leaves behind. *)
Lemma finish_step_returns f (a1 : Agent) batch (g : PyRng) loss (w' : World) :
  finish_step f a1 batch g = (Return (Some loss), w') →
  loss = (trained f a1 batch).2
  ∧ q_net (agent w') = (trained f a1 batch).1.1
  ∧ optimizer (agent w') = (trained f a1 batch).1.2
  ∧ target_q_net (agent w')
    = (if (step_count a1 mod update_freq a1 =? 0)%Z
       then (trained f a1 batch).1.1 else target_q_net a1).
Proof.
  unfold finish_step.
  destruct (trained f a1 batch) as [[θ' o'] loss']. simpl.
  destruct (update_freq a1 =? 0)%Z; [done|].
  destruct (step_count a1 mod update_freq a1 =? 0)%Z; intros [= <- <-]; done.
Qed.


End LearnFacts.

(** ** Target synchronisation, epsilon decay and checkpoints *)

Section ScheduleFacts.
Context {Params OptState PyRng : Type}
  `{!QNetwork Params} `{!Optimizer Params OptState} `{!PyRandom PyRng}.
Local Abbreviation Agent := (Agent Params OptState).
Local Abbreviation World := (World Params OptState PyRng).
Local Abbreviation Checkpoint := (Checkpoint Params OptState).

(** What one call of [learn] does to the target parameters, the step
    counter and the update period. *)
Lemma learn_step_spec (w : World) :
  let out := (run learn w).1 in
  let w' := (run learn w).2 in
  update_freq (agent w') = update_freq (agent w)
  ∧ match out with
    | Return (Some _) =>
        step_count (agent w') = (step_count (agent w) + 1)%Z
        ∧ if (step_count (agent w') mod update_freq (agent w') =? 0)%Z
          then target_q_net (agent w') = q_net (agent w')
          else target_q_net (agent w') = target_q_net (agent w)
    | _ => target_q_net (agent w') = target_q_net (agent w)
    end.
Proof.
  rewrite run_learn. simpl.
  destruct (buffer_len (buffer (agent w)) <? batch_size (agent w))%Z; [done|].
  destruct (sample _ _ _) as [[batch g]|]; [|done].
  assert (Hfin : ∀ f,
    let r := finish_step f (set_step_count (step_count (agent w) + 1) (agent w))
                         batch g in
    update_freq (agent r.2) = update_freq (agent w)
    ∧ match r.1 with
      | Return (Some _) =>
          step_count (agent r.2) = (step_count (agent w) + 1)%Z
          ∧ if (step_count (agent r.2) mod update_freq (agent r.2) =? 0)%Z
            then target_q_net (agent r.2) = q_net (agent r.2)
            else target_q_net (agent r.2) = target_q_net (agent w)
      | _ => target_q_net (agent r.2) = target_q_net (agent w)
      end).
  { intros f r.
    destruct r as [out w'] eqn:Er. subst r.
    destruct (finish_step_spec _ _ _ _ _ _ Er) as (_ & Hsc & Huf & Ht).
    simpl in *. split; [done|].
    destruct out as [[loss|]|e]; try done.
    split; [done|]. by rewrite Hsc, Huf. }
  destruct (String.eqb (loss_type (agent w)) "mse"); [apply Hfin|].
  destruct (String.eqb (loss_type (agent w)) "smooth_l1"); [apply Hfin|].
  done.
Qed.

(** The selections only advance the random generator. *)
Lemma select_action_agent s cs (w : World) :
  agent (run (select_action s cs) w).2 = agent w.
Proof.
  unfold select_action. simpl.
  destruct (random (rng w)) as [u g]. simpl.
  destruct (Py.Qlt_bool u (epsilon (agent w))).
  - simpl. destruct (randrange _ _) as [[i g']|]; done.
  - destruct (Py.argmax _); done.
Qed.

Lemma select_slate_agent s cs k (w : World) :
  agent (run (select_slate s cs k) w).2 = agent w.
Proof.
  unfold select_slate. destruct (all_candidates cs) as [|c0 all]; [done|]. simpl.
  destruct (random (rng w)) as [u g]. simpl.
  destruct (Py.Qlt_bool u (epsilon (agent w))); [|done].
  simpl. destruct (sample _ _ _) as [[picked g']|]; done.
Qed.

Lemma after_call_target (c : Call) (w : World) :
  if is_sync c w
  then target_q_net (agent (after_call c w)) = q_net (agent (after_call c w))
  else target_q_net (agent (after_call c w)) = target_q_net (agent w).
Proof.
  destruct c; cbn [after_call is_sync].
  - pose proof (learn_step_spec w) as [_ Hl]. cbv zeta in Hl.
    destruct (run learn w) as [[[loss|]|e] w']; cbn [fst snd] in *; try done.
    destruct Hl as [_ Hl]. done.
  - done.
  - done.
  - by rewrite select_action_agent.
  - by rewrite select_slate_agent.
Qed.

Lemma after_calls_target (cs : list Call) : ∀ (w : World) (synced : Params),
  target_q_net (agent w) = synced →
  target_q_net (agent (after_calls cs w)) = last_synced synced cs w.
Proof.
  induction cs as [|c cs IH]; intros w synced Hs; simpl; [done|].
  apply IH. pose proof (after_call_target c w) as Hc.
  destruct (is_sync c w); [done|]. by rewrite Hc.
Qed.

Lemma after_calls_learns (n : nat) : ∀ w : World,
  learns_succeed n w →
  step_count (agent (after_calls (replicate n CallLearn) w))
  = (step_count (agent w) + Z.of_nat n)%Z
  ∧ update_freq (agent (after_calls (replicate n CallLearn) w))
    = update_freq (agent w).
Proof.
  induction n as [|n IH]; intros w Hn.
  - simpl. split; [lia|done].
  - destruct Hn as [(loss & w' & Hrun) Hn].
    cbn [replicate after_calls].
    destruct (IH _ Hn) as [Hsc Huf]. rewrite Hsc, Huf.
    pose proof (learn_step_spec w) as [Huf' Hl]. cbv zeta in Huf', Hl.
    cbn [after_call]. rewrite Hrun in *. cbn [fst snd] in *.
    destruct Hl as [Hsc' _]. split; [lia|done].
Qed.

Lemma after_calls_app cs1 cs2 (w : World) :
  after_calls (cs1 ++ cs2) w = after_calls cs2 (after_calls cs1 w).
Proof. revert w. induction cs1 as [|c cs1 IH]; intros w; simpl; [done|]. apply IH. Qed.

(** C4.  A call on the agent synchronises exactly when it is a learn-step
    that returns a loss with a step counter that is a multiple of
    [update_freq]: then the target parameters equal the live parameters;
    every other call leaves the target parameters as they were.  So, starting
    from equal live and target parameters (as [__init__] leaves them), after
    any sequence of calls the target parameters are the live parameters of
    the last synchronisation event, whatever the live network has become
    since; and after [update_freq] successful learn-steps of a fresh agent
    the two are equal.  The synchronisation is a copy of the live parameters
    into the target: a learn-step that returns a loss leaves the live
    parameters that its optimizer step has just computed, and the target
    parameters are these same parameters when the step synchronises, and the
    target parameters from before the step when it does not. *)
Theorem target_sync_cadence :
  (∀ θ0 lr bs e0 emin edec γ uf cap lt,
     target_q_net (__init__ θ0 lr bs e0 emin edec γ uf cap lt)
     = q_net (__init__ θ0 lr bs e0 emin edec γ uf cap lt))
  ∧ (∀ (c : Call) (w : World),
       if is_sync c w
       then target_q_net (agent (after_call c w)) = q_net (agent (after_call c w))
       else target_q_net (agent (after_call c w)) = target_q_net (agent w))
  ∧ (∀ (cs : list Call) (w : World),
       target_q_net (agent w) = q_net (agent w) →
       target_q_net (agent (after_calls cs w))
       = last_synced (q_net (agent w)) cs w)
  ∧ (∀ (n : nat) (w : World),
       step_count (agent w) = 0%Z →
       update_freq (agent w) = Z.of_nat (S n) →
       learns_succeed (S n) w →
       target_q_net (agent (after_calls (replicate (S n) CallLearn) w))
       = q_net (agent (after_calls (replicate (S n) CallLearn) w)))
  ∧ (∀ (w : World) loss w',
       run learn w = (Return (Some loss), w') →
       ∃ f batch g,
         sample (records (buffer (agent w))) (batch_size (agent w)) (rng w)
         = Some (batch, g)
         ∧ let a1 := set_step_count (step_count (agent w) + 1) (agent w) in
           q_net (agent w') = (trained f a1 batch).1.1
           ∧ target_q_net (agent w')
             = (if is_sync CallLearn w then (trained f a1 batch).1.1
                else target_q_net (agent w))).
Proof.
  split; [done|]. split; [apply after_call_target|].
  split; [intros cs w Hw; by apply after_calls_target|].
  split.
  2:{ intros w loss w' Hrun. cbn [is_sync]. rewrite Hrun.
      apply learn_returns_inv in Hrun as (f & batch & g & Hs & Hfin).
      exists f, batch, g. split; [done|]. cbv zeta.
      destruct (finish_step_spec _ _ _ _ _ _ Hfin) as (_ & Hsc & Huf & _).
      apply finish_step_returns in Hfin as (_ & Hq & _ & Ht).
      split; [done|]. rewrite Hsc, Huf. exact Ht. }
  intros n w Hsc Huf Hn.
  replace (replicate (S n) CallLearn) with (replicate n CallLearn ++ [CallLearn])
    by (rewrite <- replicate_S_end; done).
  rewrite after_calls_app. cbn [after_calls after_call].
  set (w1 := after_calls (replicate n CallLearn) w).
  assert (Hpre : learns_succeed n w ∧ learn_succeeds w1).
  { clear Hsc Huf. subst w1. revert w Hn.
    induction n as [|n IH]; intros w [Hw Hn]; cbn [replicate after_calls];
      [done|].
    destruct (IH _ Hn) as [Hpre Hlast]. done. }
  destruct Hpre as [Hpre (loss & w' & Hrun)].
  destruct (after_calls_learns n w Hpre) as [Hsc1 Huf1]. fold w1 in Hsc1, Huf1.
  pose proof (learn_step_spec w1) as [Huf' Hl]. cbv zeta in Hl, Huf'.
  rewrite Hrun in *. cbn [fst snd] in *. destruct Hl as [Hsc' Hl].
  replace (step_count (agent w') mod update_freq (agent w') =? 0)%Z with true in Hl;
    [done|].
  symmetry. apply Z.eqb_eq.
  rewrite Hsc', Huf', Hsc1, Huf1, Hsc, Huf.
  replace (0 + Z.of_nat n + 1)%Z with (Z.of_nat (S n)) by lia.
  apply Z_mod_same_full.
Qed.

(** *** [decay_epsilon] *)

Lemma decay_epsilon_agent (w : World) :
  agent (after_call CallDecayEpsilon w)
  = set_epsilon (Py.max2 (epsilon (agent w) * epsilon_dec (agent w))
                         (epsilon_min (agent w))) (agent w).
Proof. done. Qed.

Lemma decay_n_S n (w : World) :
  decay_n (S n) w = after_call CallDecayEpsilon (decay_n n w).
Proof. done. Qed.

Lemma decay_n_params n (w : World) :
  epsilon_min (agent (decay_n n w)) = epsilon_min (agent w)
  ∧ epsilon_dec (agent (decay_n n w)) = epsilon_dec (agent w).
Proof.
  induction n as [|n [IH1 IH2]]; [done|].
  rewrite decay_n_S, decay_epsilon_agent. simpl. done.
Qed.

Lemma decay_n_floor n (w : World) :
  epsilon_min (agent w) <= epsilon (agent (decay_n (S n) w)).
Proof.
  rewrite decay_n_S, decay_epsilon_agent. simpl.
  destruct (decay_n_params n w) as [-> _].
  apply PyFacts.max2_ge_r.
Qed.

Lemma decay_once_le (e d m : Q) :
  0 <= m → m <= e → d <= 1 → Py.max2 (e * d) m <= e.
Proof.
  intros Hm Hme Hd.
  destruct (PyFacts.max2_cases (e * d) m) as [[-> _]|[-> _]]; [|done].
  nra.
Qed.

(** C3, as the code has it.  Each call of [decay_epsilon] sets epsilon to
    [max(epsilon * epsilon_dec, epsilon_min)] and changes nothing else; after
    every call epsilon is at least [epsilon_min]; and when the agent starts
    with [0 <= epsilon_min <= epsilon] and a decay rate of at most 1, epsilon
    never increases along the calls. *)
Theorem decay_epsilon_floor_and_monotone (w : World) (n : nat) :
  agent (after_call CallDecayEpsilon w)
  = set_epsilon (Py.max2 (epsilon (agent w) * epsilon_dec (agent w))
                         (epsilon_min (agent w))) (agent w)
  ∧ epsilon_min (agent w) <= epsilon (agent (decay_n (S n) w))
  ∧ (0 <= epsilon_min (agent w) →
     epsilon_min (agent w) <= epsilon (agent w) →
     epsilon_dec (agent w) <= 1 →
     epsilon (agent (decay_n (S n) w)) <= epsilon (agent (decay_n n w))).
Proof.
  split; [done|]. split; [apply decay_n_floor|].
  intros Hm Hme Hd.
  assert (Hn : epsilon_min (agent w) <= epsilon (agent (decay_n n w))).
  { destruct n as [|n]; [done|]. apply decay_n_floor. }
  rewrite decay_n_S, decay_epsilon_agent. simpl.
  destruct (decay_n_params n w) as [-> ->].
  by apply decay_once_le.
Qed.

(** *** [load] *)

(** C2, as the code has it.  Loading a blob that has the three state
    entries does not fail, whichever of the four scalar entries are missing.
    A missing [epsilon], [epsilon_min] or [epsilon_dec] keeps the agent's
    current value; a missing [step_count] sets the step counter to 0. *)
Theorem load_missing_optional_fields (ck : Checkpoint) (w : World)
    (θ θt : Params) (o : OptState) :
  ck_q_net_state ck = Some θ →
  ck_target_net_state ck = Some θt →
  ck_optimizer_state ck = Some o →
  run (load ck) w
  = (Return tt,
     mkWorld
       (mkAgent θ θt o (buffer (agent w)) (gamma (agent w)) (batch_size (agent w))
          (default (epsilon (agent w)) (ck_epsilon ck))
          (default (epsilon_min (agent w)) (ck_epsilon_min ck))
          (default (epsilon_dec (agent w)) (ck_epsilon_dec ck))
          (update_freq (agent w))
          (default 0%Z (ck_step_count ck))
          (loss_type (agent w)))
       (rng w))
  ∧ (ck_epsilon ck = None →
     epsilon (agent (run (load ck) w).2) = epsilon (agent w))
  ∧ (ck_epsilon_min ck = None →
     epsilon_min (agent (run (load ck) w).2) = epsilon_min (agent w))
  ∧ (ck_epsilon_dec ck = None →
     epsilon_dec (agent (run (load ck) w).2) = epsilon_dec (agent w))
  ∧ (ck_step_count ck = None →
     step_count (agent (run (load ck) w).2) = 0%Z).
Proof.
  intros Hq Ht Ho.
  assert (Hrun : run (load ck) w
    = (Return tt,
       mkWorld
         (mkAgent θ θt o (buffer (agent w)) (gamma (agent w)) (batch_size (agent w))
            (default (epsilon (agent w)) (ck_epsilon ck))
            (default (epsilon_min (agent w)) (ck_epsilon_min ck))
            (default (epsilon_dec (agent w)) (ck_epsilon_dec ck))
            (update_freq (agent w))
            (default 0%Z (ck_step_count ck))
            (loss_type (agent w)))
         (rng w))).
  { unfold load. rewrite Hq, Ht, Ho. done. }
  rewrite Hrun. simpl.
  split; [done|].
  repeat split; intros ->; done.
Qed.

(** A blob without the live parameters makes [load] raise before anything is
    changed; the three state entries are not optional. *)
Lemma load_missing_state_raises (ck : Checkpoint) (w : World) :
  ck_q_net_state ck = None →
  run (load ck) w = (Raise (KeyError "q_net_state"), w).
Proof. intros Hq. unfold load. rewrite Hq. done. Qed.

End ScheduleFacts.

(** ** Selection *)

Section SelectionFacts.
Context {Params OptState PyRng : Type}
  `{!QNetwork Params} `{!Optimizer Params OptState} `{!PyRandom PyRng}.
Context `{!PyRandomLaws PyRng}.
Local Abbreviation Agent := (Agent Params OptState).
Local Abbreviation World := (World Params OptState PyRng).
Local Abbreviation Checkpoint := (Checkpoint Params OptState).

(** The batched call against the repeated state is one value per
    candidate. *)
Lemma net_call_fixed_state (θ : Params) (s : State) (cands : list Emb) :
  net_call θ (replicate (length cands) s) cands = map (q_value θ s) cands.
Proof. apply zip_with_replicate_map. Qed.

(** With epsilon at zero no draw of [random()] is below it. *)
Lemma epsilon_zero_exploits (w : World) :
  epsilon (agent w) <= 0 → exploits w.
Proof.
  intros He. unfold exploits. apply PyFacts.Qlt_bool_false.
  destruct (random_unit (rng w)) as [Hu _]. lra.
Qed.

(** C7.  For a non-empty candidate list, when the draw does not explore,
    [select_action] returns an index [i] of the candidate list such that the
    live network's value of candidate [i] against the given state is a
    maximum over all candidates, and every earlier candidate has a strictly
    smaller value (ties go to the first index); the network is evaluated once
    per candidate, and the agent is not changed. *)
Theorem select_action_exploits (s : State) (cands : list Emb) (w : World) :
  cands ≠ [] →
  exploits w →
  net_call (q_net (agent w)) (replicate (length cands) s) cands
  = map (q_value (q_net (agent w)) s) cands
  ∧ ∃ (i : nat) (c : Emb),
      run (select_action s cands) w
      = (Return (Z.of_nat i), mkWorld (agent w) (random (rng w)).2)
      ∧ (0 ≤ Z.of_nat i < Z.of_nat (length cands))%Z
      ∧ cands !! i = Some c
      ∧ (∀ j c', cands !! j = Some c' →
                 q_value (q_net (agent w)) s c' <= q_value (q_net (agent w)) s c)
      ∧ (∀ j c', (j < i)%nat → cands !! j = Some c' →
                 q_value (q_net (agent w)) s c' < q_value (q_net (agent w)) s c).
Proof.
  intros Hne Hex. unfold exploits in Hex.
  split; [apply net_call_fixed_state|].
  unfold select_action. simpl.
  destruct (random (rng w)) as [u g] eqn:Er. simpl in *. rewrite Hex.
  rewrite net_call_fixed_state.
  destruct (PyFacts.argmax_spec (map (q_value (q_net (agent w)) s) cands))
    as (i & m & Harg & Hi & Hmax & Hfirst).
  { intros Hnil. by apply map_eq_nil in Hnil. }
  rewrite Harg. simpl.
  rewrite list_lookup_fmap in Hi.
  destruct (cands !! i) as [c|] eqn:Hc; [|done].
  injection Hi as <-.
  exists i, c. split; [done|].
  split; [apply lookup_lt_Some in Hc; lia|].
  split; [done|]. split.
  - intros j c' Hj. apply (Hmax j).
    by rewrite list_lookup_fmap, Hj.
  - intros j c' Hlt Hj. apply (Hfirst j); [done|].
    by rewrite list_lookup_fmap, Hj.
Qed.

(** The pairs that the exploitation branch of [select_slate] sorts: for
    every type, in dict order, and every index of that type, in list order,
    the identifier with the live network's value of that candidate. *)
Lemma q_values_with_pos_spec (θ : Params) (s : State) (cands : CandDict) :
  q_values_with_pos θ s cands
  = flat_map (λ '(ctype, embs),
                zip_with (λ i emb, ((ctype, i), q_value θ s emb))
                         (seq 0 (length embs)) embs)
             cands.
Proof.
  unfold q_values_with_pos.
  induction cands as [|[ctype embs] rest IH]; [done|].
  cbn [flat_map]. rewrite IH. f_equal.
  destruct embs as [|e es]; [done|].
  rewrite net_call_fixed_state. unfold Py.enumerate. rewrite length_map.
  generalize (e :: es) as l. generalize 0%nat as k.
  intros k l. revert k. induction l as [|x xs IHl]; intros k; [done|].
  simpl. by rewrite IHl.
Qed.

Lemma q_values_with_pos_ids (θ : Params) (s : State) (cands : CandDict) :
  map fst (q_values_with_pos θ s cands) = all_candidates cands.
Proof.
  rewrite q_values_with_pos_spec. unfold all_candidates.
  induction cands as [|[ctype embs] rest IH]; [done|].
  cbn [flat_map]. rewrite map_app, IH. f_equal.
  generalize 0%nat as k. induction embs as [|x xs IHl]; intros k; [done|].
  simpl. by rewrite IHl.
Qed.

Lemma take_min_length {A : Type} (l : list A) (k : Z) :
  (0 ≤ k)%Z →
  take (Z.to_nat (Z.min k (Z.of_nat (length l)))) l = take (Z.to_nat k) l.
Proof.
  intros Hk. destruct (Z.min_spec k (Z.of_nat (length l))) as [[_ ->]|[Hle ->]];
    [done|].
  rewrite Nat2Z.id, firstn_all. symmetry. apply take_ge. lia.
Qed.

(** C6.  With a requested size [k >= 0], when the draw does not explore,
    [select_slate] computes one value per (type, index) identifier, in
    flatten order; ranks the (identifier, value) pairs by the stable
    descending sort (a permutation of the pairs, in descending value order,
    pairs of equal value in their flatten order); and returns the identifiers
    of the first [min(k, total)] ranked pairs.  The agent is not changed. *)
Theorem select_slate_exploits (s : State) (cands : CandDict) (k : Z) (w : World) :
  (0 ≤ k)%Z →
  exploits w →
  let θ := q_net (agent w) in
  let values :=
    flat_map (λ '(ctype, embs),
                zip_with (λ i emb, ((ctype, i), q_value θ s emb))
                         (seq 0 (length embs)) embs)
             cands in
  let ranked := Py.sort_desc snd values in
  let total := length (all_candidates cands) in
  let slate := map fst (take (Z.to_nat (Z.min k (Z.of_nat total))) ranked) in
  map fst values = all_candidates cands
  ∧ ranked ≡ₚ values
  ∧ descending snd ranked
  ∧ same_order_of_ties snd values ranked
  ∧ (run (select_slate s cands k) w).1 = Return slate
  ∧ Z.of_nat (length slate) = Z.min k (Z.of_nat total)
  ∧ agent (run (select_slate s cands k) w).2 = agent w.
Proof.
  intros Hk Hex θ values ranked total slate.
  assert (Hvals : values = q_values_with_pos θ s cands)
    by (by rewrite q_values_with_pos_spec).
  assert (Hids : map fst values = all_candidates cands)
    by (rewrite Hvals; apply q_values_with_pos_ids).
  assert (Hlen : length ranked = total).
  { unfold ranked, total. rewrite PyFacts.sort_desc_length, <- Hids.
    by rewrite length_map. }
  split; [done|].
  split; [apply PyFacts.sort_desc_perm|].
  split; [apply PyFacts.sort_desc_descending|].
  split; [apply PyFacts.sort_desc_ties|].
  split; [|split; [|apply select_slate_agent]].
  - unfold select_slate.
    destruct (all_candidates cands) as [|c0 all] eqn:Hall.
    + simpl. f_equal. unfold slate.
      assert (Hr : ranked = []).
      { apply length_zero_iff_nil. by rewrite Hlen. }
      rewrite Hr. by rewrite take_nil.
    + unfold exploits in Hex. simpl.
      destruct (random (rng w)) as [u g]. simpl in *. rewrite Hex. simpl.
      f_equal. unfold exploit_slate, slate.
      rewrite PyFacts.slice_to_nonneg by done.
      fold θ. rewrite <- Hvals. fold ranked.
      rewrite <- Hlen, take_min_length by done. done.
  - unfold slate. rewrite length_map, length_take, Hlen. lia.
Qed.

End SelectionFacts.

(** ** The response handler *)

Module HandlerFacts.
Import Handler.

Lemma extract_step_spec ids result i resp c out :
  ids !! i = Some c →
  extract_step ids result i resp = Return out →
  ∃ r, out = result ++ [r] ∧ entry_of_response resp c r.
Proof.
  intros Hc. unfold entry_of_response.
  destruct resp as [| b | z | f | s | l | d]; simpl; rewrite Hc;
    try (intros [= <-]; eexists; split; [done|]; done).
  destruct (py_int (dict_get d "content_id")) as [z|e]; simpl; [|done].
  destruct (_parse_single_response_for_all d) as [[cl dw]|e]; simpl; [|done].
  intros [= <-]. eexists. split; [done|]. done.
Qed.

(** The first loop appends one entry per response, in order, as long as
    there is a content at the response's position. *)
Lemma extract_loop_spec ids responses : ∀ result out,
  (length result + length responses ≤ length ids)%nat →
  extract_loop ids result (length result) responses = Return out →
  length out = (length result + length responses)%nat
  ∧ take (length result) out = result
  ∧ ∀ j resp, responses !! j = Some resp →
      ∃ r c, out !! (length result + j)%nat = Some r
             ∧ ids !! (length result + j)%nat = Some c
             ∧ entry_of_response resp c r.
Proof.
  induction responses as [|resp rest IH]; intros result out Hlen Hrun.
  - simpl in Hrun. injection Hrun as <-. simpl.
    split; [lia|]. split; [by rewrite firstn_all|]. intros j r Hj. done.
  - simpl in Hlen, Hrun.
    destruct (ids !! length result) as [c|] eqn:Hc.
    2:{ apply lookup_ge_None in Hc. lia. }
    destruct (extract_step ids result (length result) resp) as [result'|e] eqn:Hs;
      [|done].
    simpl in Hrun.
    destruct (extract_step_spec _ _ _ _ _ _ Hc Hs) as (r & -> & Hr).
    assert (Hl' : length (result ++ [r]) = S (length result))
      by (rewrite length_app; simpl; lia).
    rewrite <- Hl' in Hrun.
    apply IH in Hrun; [|rewrite Hl'; lia].
    destruct Hrun as (Hout & Htake & Hall). rewrite Hl' in *.
    split; [simpl; lia|].
    assert (Htake' : take (length result) out = result).
    { replace (take (length result) out)
        with (take (length result) (take (S (length result)) out)).
      - rewrite Htake. by rewrite take_app_length.
      - rewrite take_take. f_equal. lia. }
    split; [done|].
    intros [|j] resp' Hj; simpl in Hj.
    + injection Hj as <-. exists r, c.
      rewrite Nat.add_0_r. split; [|done].
      assert (Hlook : take (S (length result)) out !! length result = Some r).
      { rewrite Htake. rewrite lookup_app_r by lia.
        by rewrite Nat.sub_diag. }
      rewrite lookup_take_lt in Hlook by lia. done.
    + destruct (Hall j resp' Hj) as (r' & c' & Hr' & Hc' & He).
      exists r', c'.
      replace (length result + S j)%nat with (S (length result) + j)%nat by lia.
      done.
Qed.

Lemma add_missing_extends ids contents : ∀ result out,
  add_missing ids result contents = Return out →
  ∃ extra, out = result ++ extra.
Proof.
  induction contents as [|content rest IH]; intros result out Hrun; simpl in Hrun.
  - injection Hrun as <-. exists []. by rewrite app_nil_r.
  - destruct (in_int_set (dict_get content "id") ids) as [[|]|e]; simpl in Hrun;
      [ by apply IH | | done ].
    apply IH in Hrun as [extra ->].
    eexists. by rewrite <- (assoc_L (++)).
Qed.

Lemma extract_step_returns ids result i resp :
  accepted_response resp →
  extract_step ids result i resp = Return result
  ∨ ∃ r, extract_step ids result i resp = Return (result ++ [r]).
Proof.
  intros Hacc. unfold extract_step.
  destruct resp as [| b | z | f | s | l | d].
  7:{ destruct Hacc as [[z ->] [[cl dw] ->]]. simpl.
      destruct (ids !! i); [right; by eexists|by left]. }
  all: destruct (ids !! i); [right; by eexists|by left].
Qed.

(** The loop returns on accepted responses, whatever the index and the
    entries made so far. *)
Lemma extract_loop_returns ids responses : ∀ result i,
  Forall accepted_response responses →
  ∃ out, extract_loop ids result i responses = Return out.
Proof.
  induction responses as [|resp rest IH]; intros result i Hacc; simpl.
  - by eexists.
  - apply Forall_cons in Hacc as [Hresp Hrest].
    destruct (extract_step_returns ids result i resp Hresp) as [->|[r ->]];
      simpl; by apply IH.
Qed.

Lemma response_content_ids_returns result :
  Forall (λ r, ∃ z, py_int (content_id r) = Return z) result →
  ∃ s, response_content_ids result = Return s.
Proof.
  induction 1 as [|r rest [z Hz] _ [s IH]]; simpl; [eauto|].
  rewrite Hz, IH. simpl. eauto.
Qed.

Lemma in_int_set_returns v s :
  (∃ z, py_int v = Return z) → ∃ b, in_int_set v s = Return b.
Proof.
  intros [z Hz].
  destruct v as [| b | z' | [q| |neg] | str | l | d]; simpl in *; eauto; done.
Qed.

Lemma add_missing_returns ids contents : ∀ result,
  Forall accepted_content contents →
  ∃ out, add_missing ids result contents = Return out.
Proof.
  induction contents as [|content rest IH]; intros result Hacc; simpl; [eauto|].
  apply Forall_cons in Hacc as [Hc Hrest].
  destruct (in_int_set_returns _ ids Hc) as [b ->]. simpl.
  destruct b; by apply IH.
Qed.

(** X25.  On a response list that passes the count
    check, whenever the extraction returns, the entry at position [i] of the
    result carries the id of the [i]-th content, and its click and dwell time
    come from the [i]-th response (the default entry when that response is not
    an object): the [content_id] value inside the response is converted with
    [int()] and then not used.  The extraction returns whenever every object
    among the responses has a [content_id] and a dwell time that [int()]
    accepts and every content has an id that [int()] accepts. *)
Theorem extraction_matches_by_position
    (responses : list Json) (all_contents : list (gmap string Json)) :
  (∀ out, validate_and_extract responses all_contents = Return out →
     length responses = length all_contents
     ∧ ∀ i content, all_contents !! i = Some content →
         ∃ r resp, out !! i = Some r
                   ∧ responses !! i = Some resp
                   ∧ entry_of_response resp (dict_get content "id") r)
  ∧ (length responses = length all_contents →
     Forall accepted_response responses →
     Forall accepted_content all_contents →
     ∃ out, validate_and_extract responses all_contents = Return out).
Proof.
  unfold validate_and_extract, _validate_response_count,
    _extract_all_content_responses.
  set (ids := map (λ content, dict_get content "id") all_contents).
  assert (Hids : length ids = length all_contents)
    by (unfold ids; by rewrite length_map).
  split.
  - intros out Hrun.
    destruct (Nat.eqb_spec (length responses) (length all_contents))
      as [Hlen|_]; [|done].
    split; [done|]. simpl in Hrun.
    destruct (extract_loop ids [] 0 responses) as [result|e] eqn:Hloop; [|done].
    simpl in Hrun.
    destruct (response_content_ids result) as [s|e]; [|done]. simpl in Hrun.
    apply add_missing_extends in Hrun as [extra ->].
    apply (extract_loop_spec ids responses []) in Hloop; [|simpl; lia].
    destruct Hloop as (Hres & _ & Hall). simpl in Hres, Hall.
    intros i content Hi.
    destruct (responses !! i) as [resp|] eqn:Hresp.
    2:{ apply lookup_ge_None in Hresp. apply lookup_lt_Some in Hi. lia. }
    destruct (Hall i resp Hresp) as (r & c & Hr & Hc & He).
    exists r, resp. split; [by apply lookup_app_l_Some|]. split; [done|].
    unfold ids in Hc. rewrite list_lookup_fmap, Hi in Hc.
    injection Hc as <-. done.
  - intros Hlen Hresp Hcont.
    rewrite Hlen, Nat.eqb_refl. simpl.
    destruct (extract_loop_returns ids responses [] 0%nat Hresp) as [result Hloop].
    simpl in Hloop. rewrite Hloop. simpl.
    apply (extract_loop_spec ids responses []) in Hloop; [|simpl; lia].
    destruct Hloop as (Hres & _ & Hall). simpl in Hres, Hall.
    destruct (response_content_ids_returns result) as [s ->].
    { apply Forall_lookup. intros j r Hr.
      destruct (responses !! j) as [resp|] eqn:Hj.
      2:{ apply lookup_ge_None in Hj. apply lookup_lt_Some in Hr. lia. }
      destruct (Hall j resp Hj) as (r' & c & Hr' & Hc & [Hid _]).
      rewrite Hr in Hr'. injection Hr' as <-. rewrite Hid.
      unfold ids in Hc. rewrite list_lookup_fmap in Hc.
      destruct (all_contents !! j) as [content|] eqn:Hcj; [|done].
      injection Hc as <-.
      rewrite Forall_lookup in Hcont. by apply (Hcont j). }
    simpl. by apply add_missing_returns.
Qed.

End HandlerFacts.

(** ** Concrete runs

    All of them on the instance [Toy]. *)

Import Toy.

(** Property P2 of the specification: rewards 1.0 and 2.0, done flags 0 and
    1, discount 0.9, next values 0.1, 0.9, 0.4 for record 0 and none for
    record 1 give the targets 1.81 and 2.0. *)
Example learn_targets_P2 :
  map Qred (learn_targets 0.9 (1 : Q) Toy.batch_P2) = [1.81; 2].
Proof. vm_compute. reflexivity. Qed.


Lemma learn_noop_below_batch_size_witness :
  (buffer_len (buffer (agent Toy.w_small)) < batch_size (agent Toy.w_small))%Z
  ∧ run learn Toy.w_small = (Return None, Toy.w_small).
Proof.
  assert (Hlt : (buffer_len (buffer (agent Toy.w_small))
                 < batch_size (agent Toy.w_small))%Z) by (vm_compute; reflexivity).
  split; [exact Hlt|].
  exact (learn_noop_below_batch_size Toy.w_small Hlt).
Defined.

Lemma learn_unsupported_loss_not_atomic_witness :
  run learn Toy.w_l1
  = (Raise (UnsupportedLossType "l1"),
     mkWorld (set_step_count 1 (agent Toy.w_l1)) 1282168116%Z)
  ∧ step_count (agent Toy.w_l1) = 0%Z
  ∧ step_count (agent (mkWorld (set_step_count 1 (agent Toy.w_l1)) 1282168116%Z))
    = (step_count (agent Toy.w_l1) + 1)%Z.
Proof.
  assert (Hrun : run learn Toy.w_l1
                 = (Raise (UnsupportedLossType "l1"),
                    mkWorld (set_step_count 1 (agent Toy.w_l1)) 1282168116%Z))
    by (vm_compute; reflexivity).
  split; [exact Hrun|]. split; [reflexivity|].
  exact (proj1 (proj2 (learn_unsupported_loss_not_atomic _ _ _ Hrun))).
Defined.

(** The claim of C8 fails on a buffer below the batch size: the loss kind is
    unsupported, the constructor has accepted it, and [learn] returns [None]
    instead of raising. *)
Lemma unsupported_loss_below_batch_size_no_error :
  ¬ supported_loss (loss_type (agent Toy.w_small_l1))
  ∧ loss_type (__init__ (1 : Q) (1 # 100) 3 1 (1 # 10) (9 # 10) (9 # 10) 1 100 "l1")
    = "l1"
  ∧ run learn Toy.w_small_l1 = (Return None, Toy.w_small_l1)
  ∧ ¬ ∃ s w', run learn Toy.w_small_l1 = (Raise (UnsupportedLossType s), w').
Proof.
  assert (Hrun : run learn Toy.w_small_l1 = (Return None, Toy.w_small_l1))
    by (vm_compute; reflexivity).
  split; [intros [Hs|Hs]; vm_compute in Hs; discriminate|].
  split; [reflexivity|]. split; [exact Hrun|].
  intros (s & w' & Hr). rewrite Hrun in Hr. discriminate.
Qed.

Lemma learn_raises_iff_unsupported_and_full_witness :
  ((0 ≤ batch_size (agent Toy.w_l1))%Z
   ∧ ¬ supported_loss (loss_type (agent Toy.w_l1))
   ∧ (batch_size (agent Toy.w_l1) ≤ buffer_len (buffer (agent Toy.w_l1)))%Z)
  ∧ ∃ s w', run learn Toy.w_l1 = (Raise (UnsupportedLossType s), w').
Proof.
  assert (Hbs : (0 ≤ batch_size (agent Toy.w_l1))%Z) by (vm_compute; discriminate).
  assert (Hpre : ¬ supported_loss (loss_type (agent Toy.w_l1))
                 ∧ (batch_size (agent Toy.w_l1)
                    ≤ buffer_len (buffer (agent Toy.w_l1)))%Z).
  { split; [intros [Hs|Hs]; vm_compute in Hs; discriminate|].
    vm_compute. discriminate. }
  split; [done|].
  exact (proj2 (proj1 (learn_raises_iff_unsupported_and_full Toy.w_l1 Hbs)) Hpre).
Defined.

(** The claim of C2 fails for the step counter: a blob without it resets
    the counter of an agent at step 5 to 0. *)
Lemma load_missing_step_count_resets :
  ck_step_count Toy.ck_no_step = None
  ∧ step_count (agent Toy.w_step5) = 5%Z
  ∧ (run (load Toy.ck_no_step) Toy.w_step5).1 = Return tt
  ∧ step_count (agent (run (load Toy.ck_no_step) Toy.w_step5).2) = 0%Z
  ∧ step_count (agent (run (load Toy.ck_no_step) Toy.w_step5).2)
    ≠ step_count (agent Toy.w_step5).
Proof. vm_compute. repeat split; discriminate. Qed.

Lemma load_missing_optional_fields_witness :
  ck_q_net_state Toy.ck_no_step = Some (2 : Q)
  ∧ ck_target_net_state Toy.ck_no_step = Some (3 : Q)
  ∧ ck_optimizer_state Toy.ck_no_step = Some 4%nat
  ∧ (run (load Toy.ck_no_step) Toy.w_step5).1 = Return tt
  ∧ epsilon_min (agent (run (load Toy.ck_no_step) Toy.w_step5).2)
    = epsilon_min (agent Toy.w_step5).
Proof.
  split; [reflexivity|]. split; [reflexivity|]. split; [reflexivity|].
  destruct (load_missing_optional_fields Toy.ck_no_step Toy.w_step5 2 3 4%nat
              eq_refl eq_refl eq_refl) as (Hrun & _ & Hmin & _).
  split; [by rewrite Hrun|]. exact (Hmin eq_refl).
Defined.

(** The claim of C3 fails for a starting epsilon below the floor: the first
    call raises epsilon from 0.1 to 0.5.  It also fails for a decay rate
    above 1: the first call raises epsilon from 0.5 to 1. *)
Lemma decay_epsilon_can_increase :
  (epsilon (agent Toy.w_low_eps) = 0.1
   ∧ epsilon (agent (decay_n 1 Toy.w_low_eps)) = 0.5
   ∧ ¬ epsilon (agent (decay_n 1 Toy.w_low_eps))
       <= epsilon (agent (decay_n 0 Toy.w_low_eps)))
  ∧ (epsilon (agent Toy.w_growing) = 0.5
     ∧ Qred (epsilon (agent (decay_n 1 Toy.w_growing))) = 1
     ∧ ¬ epsilon (agent (decay_n 1 Toy.w_growing))
         <= epsilon (agent (decay_n 0 Toy.w_growing))).
Proof.
  split.
  - split; [reflexivity|]. split; [vm_compute; reflexivity|].
    vm_compute. intros Hle. by apply Hle.
  - split; [reflexivity|]. split; [vm_compute; reflexivity|].
    vm_compute. intros Hle. by apply Hle.
Qed.

Lemma decay_epsilon_floor_and_monotone_witness :
  (0 <= epsilon_min (agent Toy.w_train)
   ∧ epsilon_min (agent Toy.w_train) <= epsilon (agent Toy.w_train)
   ∧ epsilon_dec (agent Toy.w_train) <= 1)
  ∧ epsilon (agent (decay_n 3 Toy.w_train))
    <= epsilon (agent (decay_n 2 Toy.w_train)).
Proof.
  assert (H0 : 0 <= epsilon_min (agent Toy.w_train)) by (vm_compute; discriminate).
  assert (H1 : epsilon_min (agent Toy.w_train) <= epsilon (agent Toy.w_train))
    by (vm_compute; discriminate).
  assert (H2 : epsilon_dec (agent Toy.w_train) <= 1) by (vm_compute; discriminate).
  split; [done|].
  exact (proj2 (proj2 (decay_epsilon_floor_and_monotone Toy.w_train 2)) H0 H1 H2).
Defined.

(** One learn-step of an agent that synchronises every second step: the
    live weight has moved, the target weight has not. *)
Example target_frozen_between_syncs :
  q_net (agent (after_calls [CallLearn] Toy.w_train)) = (2181 # 2000)
  ∧ target_q_net (agent (after_calls [CallLearn] Toy.w_train)) = 1
  ∧ is_sync CallLearn Toy.w_train = false.
Proof. vm_compute. done. Qed.

(** An agent that synchronises every second step: after the first
    learn-step the live weight has moved and the target weight is still the
    initial 1; after the second the target weight is the live weight of that
    moment, which is neither the initial weight nor the one after the first
    step. *)
Lemma target_sync_cadence_witness :
  (step_count (agent Toy.w_train) = 0%Z
   ∧ update_freq (agent Toy.w_train) = Z.of_nat 2
   ∧ learns_succeed 2 Toy.w_train)
  ∧ target_q_net (agent (after_calls (replicate 2 CallLearn) Toy.w_train))
    = q_net (agent (after_calls (replicate 2 CallLearn) Toy.w_train))
  ∧ Qred (target_q_net (agent (after_calls (replicate 2 CallLearn) Toy.w_train)))
    = 23439 # 20000
  ∧ q_net (agent (after_calls [CallLearn] Toy.w_train)) = 2181 # 2000
  ∧ target_q_net (agent (after_calls [CallLearn] Toy.w_train)) = 1.
Proof.
  assert (Hs : learns_succeed 2 Toy.w_train).
  { split; [|split; [|exact I]]; do 2 eexists; vm_compute; reflexivity. }
  split; [split; [reflexivity|split; [reflexivity|exact Hs]]|].
  destruct (target_sync_cadence (Params:=Q) (OptState:=nat) (PyRng:=Z))
    as (_ & _ & _ & Hn & _).
  split; [exact (Hn 1%nat Toy.w_train eq_refl eq_refl Hs)|].
  vm_compute. done.
Defined.

(** Property P5 of the specification. *)
Example select_slate_P5 :
  (run (select_slate [1] Toy.cands_P5 2) Toy.w_eps0).1
  = Return [("B", 0%nat); ("A", 1%nat)].
Proof. vm_compute. reflexivity. Qed.

Lemma select_slate_exploits_witness :
  ((0 ≤ 2)%Z ∧ exploits Toy.w_eps0)
  ∧ (run (select_slate [1] Toy.cands_P5 2) Toy.w_eps0).1
    = Return [("B", 0%nat); ("A", 1%nat)].
Proof.
  assert (Hk : (0 ≤ 2)%Z) by lia.
  assert (Hex : exploits Toy.w_eps0).
  { apply epsilon_zero_exploits. vm_compute. discriminate. }
  split; [done|].
  destruct (select_slate_exploits [1] Toy.cands_P5 2 Toy.w_eps0 Hk Hex)
    as (_ & _ & _ & _ & Hrun & _).
  rewrite Hrun. vm_compute. reflexivity.
Defined.

Lemma select_action_exploits_witness :
  ([[0.2]; [0.5]; [0.5]] ≠ ([] : list Emb) ∧ exploits Toy.w_eps0)
  ∧ ∃ (i : nat) (c : Emb),
      run (select_action [1] [[0.2]; [0.5]; [0.5]]) Toy.w_eps0
      = (Return (Z.of_nat i),
         mkWorld (agent Toy.w_eps0) (random (rng Toy.w_eps0)).2)
      ∧ (0 ≤ Z.of_nat i < 3)%Z
      ∧ [[0.2]; [0.5]; [0.5]] !! i = Some c.
Proof.
  assert (Hne : [[0.2]; [0.5]; [0.5]] ≠ ([] : list Emb)) by discriminate.
  assert (Hex : exploits Toy.w_eps0) by (vm_compute; reflexivity).
  split; [done|].
  destruct (select_action_exploits [1] [[0.2]; [0.5]; [0.5]] Toy.w_eps0 Hne Hex)
    as (_ & i & c & Hrun & Hi & Hc & _).
  exists i, c. done.
Defined.

(** A tie goes to the first index. *)
Example select_action_tie :
  (run (select_action [1] [[0.2]; [0.5]; [0.5]]) Toy.w_eps0).1 = Return 1%Z.
Proof. vm_compute. reflexivity. Qed.


(** A response whose [content_id] is 99 is matched with the content at its
    position, whose id is 7. *)
Example extraction_ignores_content_id :
  Handler.validate_and_extract Toy.responses_99 Toy.contents_78
  = Return [ Handler.mkContentResponse (Handler.JInt 7) true 30;
             Handler.mkContentResponse (Handler.JInt 8) false 0 ].
Proof. vm_compute. reflexivity. Qed.

Lemma extraction_matches_by_position_witness :
  (length Toy.responses_99 = length Toy.contents_78
   ∧ Forall Handler.accepted_response Toy.responses_99
   ∧ Forall Handler.accepted_content Toy.contents_78)
  ∧ ∃ out r,
      Handler.validate_and_extract Toy.responses_99 Toy.contents_78 = Return out
      ∧ out !! 0%nat = Some r
      ∧ Handler.content_id r = Handler.JInt 7.
Proof.
  assert (Hr : Forall Handler.accepted_response Toy.responses_99).
  { repeat constructor; eexists; vm_compute; reflexivity. }
  assert (Hc : Forall Handler.accepted_content Toy.contents_78).
  { repeat constructor; eexists; vm_compute; reflexivity. }
  split; [split; [reflexivity|done]|].
  destruct (HandlerFacts.extraction_matches_by_position
              Toy.responses_99 Toy.contents_78) as [Hpos Hret].
  destruct (Hret eq_refl Hr Hc) as [out Hout].
  destruct (Hpos out Hout) as [_ Hall].
  destruct (Hall 0%nat {["id" := Handler.JInt 7]} eq_refl)
    as (r & resp & Hlook & _ & [Hid _]).
  exists out, r. done.
Defined.

(** * Further properties of the agent *)

(** ** What [learn] changes, and when it trains *)

Section LearnMore.
Context {Params OptState PyRng : Type}
  `{!QNetwork Params} `{!Optimizer Params OptState} `{!PyRandom PyRng}.
Context `{!PyRandomLaws PyRng}.
Local Abbreviation Agent := (Agent Params OptState).
Local Abbreviation World := (World Params OptState PyRng).

Lemma finish_step_frame f (a1 : Agent) batch (g : PyRng) :
  let a' := agent (finish_step f a1 batch g).2 in
  buffer a' = buffer a1
  ∧ epsilon a' = epsilon a1
  ∧ epsilon_min a' = epsilon_min a1
  ∧ epsilon_dec a' = epsilon_dec a1
  ∧ step_count a' = step_count a1
  ∧ same_settings a1 a'.
Proof.
  unfold finish_step, same_settings.
  destruct (trained f a1 batch) as [[θ' o'] loss]. simpl.
  destruct (update_freq a1 =? 0)%Z; [done|].
  destruct (step_count a1 mod update_freq a1 =? 0)%Z; done.
Qed.

(** X1.  Whatever its outcome, [learn] leaves the buffer, the three epsilon
    attributes, the discount, the batch size, the update period and the loss
    kind as they were.  The step counter is incremented by one exactly when
    the buffer holds at least [batch_size] records, also when the call then
    raises; otherwise the whole world is unchanged. *)
Theorem learn_frame (w : World) :
  buffer (agent (run learn w).2) = buffer (agent w)
  ∧ epsilon (agent (run learn w).2) = epsilon (agent w)
  ∧ epsilon_min (agent (run learn w).2) = epsilon_min (agent w)
  ∧ epsilon_dec (agent (run learn w).2) = epsilon_dec (agent w)
  ∧ same_settings (agent w) (agent (run learn w).2)
  ∧ (if (buffer_len (buffer (agent w)) <? batch_size (agent w))%Z
     then (run learn w).2 = w
     else step_count (agent (run learn w).2) = (step_count (agent w) + 1)%Z).
Proof.
  rewrite run_learn. cbv zeta.
  destruct (buffer_len (buffer (agent w)) <? batch_size (agent w))%Z; [done|].
  destruct (sample _ _ _) as [[batch g]|]; [|done].
  assert (Hf : ∀ f,
    let r := finish_step f (set_step_count (step_count (agent w) + 1) (agent w))
                         batch g in
    buffer (agent r.2) = buffer (agent w)
    ∧ epsilon (agent r.2) = epsilon (agent w)
    ∧ epsilon_min (agent r.2) = epsilon_min (agent w)
    ∧ epsilon_dec (agent r.2) = epsilon_dec (agent w)
    ∧ same_settings (agent w) (agent r.2)
    ∧ step_count (agent r.2) = (step_count (agent w) + 1)%Z).
  { intros f.
    pose proof (finish_step_frame f
      (set_step_count (step_count (agent w) + 1) (agent w)) batch g) as Hfr.
    cbv zeta in *. simpl in Hfr. tauto. }
  destruct (String.eqb (loss_type (agent w)) "mse"); [apply Hf|].
  destruct (String.eqb (loss_type (agent w)) "smooth_l1"); [apply Hf|].
  done.
Qed.

(** X2.  With an update period of zero, a supported loss kind and a buffer
    that holds at least [batch_size >= 0] records, [learn] raises
    [ZeroDivisionError] at the synchronisation test, after the step: the
    step counter is incremented, the live parameters and the optimizer state
    are those of the training step, and the target parameters are
    untouched. *)
Theorem learn_zero_update_freq (w : World) :
  update_freq (agent w) = 0%Z →
  supported_loss (loss_type (agent w)) →
  (0 ≤ batch_size (agent w) ≤ buffer_len (buffer (agent w)))%Z →
  ∃ f batch g,
    sample (records (buffer (agent w))) (batch_size (agent w)) (rng w)
    = Some (batch, g)
    ∧ let a1 := set_step_count (step_count (agent w) + 1) (agent w) in
      run learn w
      = (Raise ZeroDivisionError,
         mkWorld (set_q_net (trained f a1 batch).1.1
                    (set_optimizer (trained f a1 batch).1.2 a1)) g)
      ∧ target_q_net (agent (run learn w).2) = target_q_net (agent w)
      ∧ step_count (agent (run learn w).2) = (step_count (agent w) + 1)%Z.
Proof.
  intros Huf Hsup [Hbs Hfull].
  assert (Hs : is_Some (sample (records (buffer (agent w)))
                               (batch_size (agent w)) (rng w))).
  { apply sample_defined. unfold buffer_len in Hfull. lia. }
  destruct Hs as [[batch g] Hs].
  assert (Hfin : ∀ f,
    let a1 := set_step_count (step_count (agent w) + 1) (agent w) in
    finish_step f a1 batch g
    = (Raise ZeroDivisionError,
       mkWorld (set_q_net (trained f a1 batch).1.1
                  (set_optimizer (trained f a1 batch).1.2 a1)) g)).
  { intros f a1. unfold finish_step.
    destruct (trained f a1 batch) as [[θ' o'] loss]. simpl.
    rewrite Huf. done. }
  assert (Hrun : ∃ f, run learn w
                      = finish_step f (set_step_count (step_count (agent w) + 1)
                                                      (agent w)) batch g).
  { rewrite run_learn. cbv zeta. rewrite Hs.
    destruct (buffer_len (buffer (agent w)) <? batch_size (agent w))%Z eqn:E.
    { apply Z.ltb_lt in E. lia. }
    apply supported_loss_eqb in Hsup.
    destruct (String.eqb (loss_type (agent w)) "mse"); [by exists MSE|].
    destruct (String.eqb (loss_type (agent w)) "smooth_l1"); [by exists SmoothL1|].
    done. }
  destruct Hrun as [f Hrun]. exists f, batch, g.
  split; [done|]. cbv zeta. rewrite Hrun, Hfin. done.
Qed.

(** X3.  For a batch size that is not negative, [learn] performs a training
    step and returns its loss exactly when the buffer holds at least
    [batch_size] records, the loss kind is supported and the update period is
    not zero. *)
Theorem learn_succeeds_iff (w : World) :
  (0 ≤ batch_size (agent w))%Z →
  learn_succeeds w
  ↔ ((batch_size (agent w) ≤ buffer_len (buffer (agent w)))%Z
     ∧ supported_loss (loss_type (agent w))
     ∧ update_freq (agent w) ≠ 0%Z).
Proof.
  intros Hbs. unfold learn_succeeds. rewrite run_learn. cbv zeta.
  assert (Hfin : ∀ f batch (g : PyRng),
    (∃ loss w', finish_step f (set_step_count (step_count (agent w) + 1) (agent w))
                            batch g = (Return (Some loss), w'))
    ↔ update_freq (agent w) ≠ 0%Z).
  { intros f batch g. unfold finish_step.
    destruct (trained f _ batch) as [[θ' o'] loss]. simpl.
    destruct (Z.eqb_spec (update_freq (agent w)) 0) as [Huf|Huf].
    - split; [intros (l & w' & Hr); done|done].
    - split; [done|]. intros _.
      destruct (_ mod _ =? 0)%Z; by do 2 eexists. }
  destruct (buffer_len (buffer (agent w)) <? batch_size (agent w))%Z eqn:Elen.
  { apply Z.ltb_lt in Elen. split; [intros (l & w' & Hr); done|]. lia. }
  apply Z.ltb_ge in Elen.
  destruct (sample (records (buffer (agent w))) (batch_size (agent w)) (rng w))
    as [[batch g]|] eqn:Es.
  2:{ assert (Hs : is_Some (sample (records (buffer (agent w)))
                                   (batch_size (agent w)) (rng w))).
      { apply sample_defined. unfold buffer_len in Elen. lia. }
      rewrite Es in Hs. by destruct Hs. }
  rewrite supported_loss_eqb.
  destruct (String.eqb (loss_type (agent w)) "mse").
  { rewrite Hfin. simpl. tauto. }
  destruct (String.eqb (loss_type (agent w)) "smooth_l1").
  { rewrite Hfin. simpl. tauto. }
  simpl. split; [intros (l & w' & Hr); done|]. intros (_ & Hf & _). done.
Qed.

End LearnMore.

(** ** Targets of terminal records, and of a record on its own *)

Section TargetsMore.
Context {Params : Type} `{!QNetwork Params}.

(** X4.  A record whose [done] flag is set gets its reward as target,
    whatever its next-candidates are; with a discount of zero every target
    is the reward. *)
Theorem learn_targets_terminal (gamma : Q) (θ_target : Params)
    (batch : list Experience) :
  (∀ i e, batch !! i = Some e → done e = true →
     ∃ t, learn_targets gamma θ_target batch !! i = Some t ∧ t == reward e)
  ∧ (gamma == 0 →
     Forall2 Qeq (learn_targets gamma θ_target batch) (map reward batch)).
Proof.
  rewrite learn_targets_own. split.
  - intros i e He Hd. rewrite list_lookup_fmap, He. simpl.
    eexists. split; [done|]. rewrite Hd. simpl. ring.
  - intros Hg. induction batch as [|e es IH]; simpl; constructor; [|done].
    rewrite Hg. ring.
Qed.

(** X5.  The target of a record does not depend on the rest of the batch:
    it is the target that [learn] computes for the batch that holds this
    record alone; so the targets of a concatenated batch are the targets of
    its parts. *)
Theorem learn_targets_local (gamma : Q) (θ_target : Params) :
  (∀ batch i e, batch !! i = Some e →
     learn_targets gamma θ_target batch !! i
     = learn_targets gamma θ_target [e] !! 0%nat)
  ∧ (∀ b1 b2,
       learn_targets gamma θ_target (b1 ++ b2)
       = learn_targets gamma θ_target b1 ++ learn_targets gamma θ_target b2).
Proof.
  split.
  - intros batch i e He. rewrite !learn_targets_own.
    rewrite list_lookup_fmap, He. done.
  - intros b1 b2. rewrite !learn_targets_own. apply map_app.
Qed.

End TargetsMore.

(** ** Selection: frame, empty input, validity of the slate *)

Section SelectionMore.
Context {Params OptState PyRng : Type}
  `{!QNetwork Params} `{!Optimizer Params OptState} `{!PyRandom PyRng}.
Context `{!PyRandomLaws PyRng}.
Local Abbreviation Agent := (Agent Params OptState).
Local Abbreviation World := (World Params OptState PyRng).

(** X6.  [select_action] and [select_slate] never change the agent,
    whether they explore, exploit or raise: they only advance the random
    generator. *)
Theorem selection_keeps_agent (w : World) :
  (∀ s cs, agent (run (select_action s cs) w).2 = agent w)
  ∧ (∀ s cands k, agent (run (select_slate s cands k) w).2 = agent w).
Proof.
  split.
  - intros s cs. apply select_action_agent.
  - intros s cands k. apply select_slate_agent.
Qed.

Lemma all_candidates_nil (cands : CandDict) :
  all_candidates cands = [] ↔ Forall (λ p, p.2 = []) cands.
Proof.
  unfold all_candidates. induction cands as [|[ctype embs] rest IH]; simpl.
  - split; [constructor|done].
  - rewrite Forall_cons. simpl. rewrite <- IH.
    destruct embs as [|e es]; simpl; [tauto|].
    split; [done|]. intros [? _]. done.
Qed.

(** X7.  When every content type has an empty candidate list (in
    particular for the empty dict), [select_slate] returns the empty slate for
    every requested size and every epsilon, and does not draw from the random
    generator: the world is unchanged. *)
Theorem select_slate_no_candidates (s : State) (cands : CandDict) (k : Z)
    (w : World) :
  Forall (λ p, p.2 = []) cands →
  run (select_slate s cands k) w = (Return [], w).
Proof.
  intros Hempty. apply all_candidates_nil in Hempty.
  unfold select_slate. by rewrite Hempty.
Qed.

Lemma elem_of_all_candidates (cands : CandDict) ctype idx :
  (ctype, idx) ∈ all_candidates cands
  ↔ ∃ embs, (ctype, embs) ∈ cands ∧ (idx < length embs)%nat.
Proof.
  unfold all_candidates. rewrite list_elem_of_In, in_flat_map. split.
  - intros ([ct embs] & Hin & Hx). apply in_map_iff in Hx as (i & [= <- <-] & Hi).
    apply in_seq in Hi. exists embs. split; [by apply list_elem_of_In|lia].
  - intros (embs & Hin & Hlt). exists (ctype, embs).
    split; [by apply list_elem_of_In|].
    apply in_map_iff. exists idx. split; [done|]. apply in_seq. lia.
Qed.

Lemma all_candidates_NoDup (cands : CandDict) :
  NoDup (map fst cands) → NoDup (all_candidates cands).
Proof.
  induction cands as [|[ctype embs] rest IH]; intros Hnd.
  - constructor.
  - simpl in Hnd. apply NoDup_cons in Hnd as [Hnotin Hrest].
    change (all_candidates ((ctype, embs) :: rest))
      with (map (λ idx, (ctype, idx)) (seq 0 (length embs)) ++ all_candidates rest).
    apply NoDup_app. split; [|split; [|by apply IH]].
    + apply (NoDup_fmap_2 (λ idx, (ctype, idx))), NoDup_seq.
    + intros [ct idx] Hin Hin'.
      apply list_elem_of_fmap in Hin as (i & [= -> ->] & _).
      apply elem_of_all_candidates in Hin' as (embs' & Hin' & _).
      apply Hnotin. apply list_elem_of_fmap. by exists (ctype, embs').
Qed.

Lemma slice_to_take {A : Type} (l : list A) (k : Z) :
  ∃ n, Py.slice_to l k = take n l.
Proof. unfold Py.slice_to. destruct (0 <=? k)%Z; eauto. Qed.

Lemma exploit_slate_sublist (θ : Params) (s : State) (cands : CandDict) (k : Z) :
  ∃ ranked_ids n,
    ranked_ids ≡ₚ all_candidates cands
    ∧ exploit_slate θ s cands k = take n ranked_ids.
Proof.
  unfold exploit_slate.
  destruct (slice_to_take (Py.sort_desc snd (q_values_with_pos θ s cands)) k)
    as [n ->].
  exists (map fst (Py.sort_desc snd (q_values_with_pos θ s cands))), n.
  split.
  - rewrite <- (q_values_with_pos_ids θ s cands).
    apply (fmap_Permutation fst), PyFacts.sort_desc_perm.
  - apply (fmap_take fst).
Qed.

(** X8.  When [select_slate] exploits, for every requested size: every
    identifier of the slate names a candidate that exists (a content type of
    the dict and an index into that type's list), the slate is never longer
    than the number of candidates, and, the keys of a dict being distinct, no
    identifier occurs twice. *)
Theorem select_slate_exploit_valid (s : State) (cands : CandDict) (k : Z)
    (w : World) :
  exploits w →
  ∃ slate,
    (run (select_slate s cands k) w).1 = Return slate
    ∧ (∀ ctype idx, (ctype, idx) ∈ slate →
         ∃ embs, (ctype, embs) ∈ cands ∧ (idx < length embs)%nat)
    ∧ (length slate ≤ length (all_candidates cands))%nat
    ∧ (NoDup (map fst cands) → NoDup slate).
Proof.
  intros Hex. unfold exploits in Hex.
  destruct (exploit_slate_sublist (q_net (agent w)) s cands k)
    as (ids & n & Hperm & Hslate).
  assert (Hrun : (run (select_slate s cands k) w).1
                 = Return (if all_candidates cands is [] then []
                           else exploit_slate (q_net (agent w)) s cands k)).
  { unfold select_slate. destruct (all_candidates cands) as [|c0 all]; [done|].
    simpl. destruct (random (rng w)) as [u g]. simpl in *. by rewrite Hex. }
  assert (Hsub : ∀ x, x ∈ take n ids → x ∈ all_candidates cands).
  { intros x Hx. rewrite <- Hperm. by apply (subseteq_take n). }
  destruct (all_candidates cands) as [|c0 all] eqn:Hall.
  - exists []. split; [done|]. split; [intros ct i Hin; by apply elem_of_nil in Hin|].
    split; [done|]. intros _. constructor.
  - exists (exploit_slate (q_net (agent w)) s cands k).
    split; [done|]. rewrite Hslate. split; [|split].
    + intros ct i Hin. apply elem_of_all_candidates. rewrite Hall. by apply Hsub.
    + rewrite length_take, <- (Permutation_length Hperm). lia.
    + intros Hnd. apply (sublist_NoDup _ ids); [|apply sublist_take].
      rewrite Hperm, <- Hall. by apply all_candidates_NoDup.
Qed.

(** X9.  With a negative requested size and at least one candidate,
    [select_slate] raises [ValueError] when it explores, and when it exploits
    it returns the ranking without its last [|max_recs|] identifiers: the
    slate that the same call gives for all candidates, cut at the end. *)
Theorem select_slate_negative_size (s : State) (cands : CandDict) (k : Z)
    (w : World) :
  (k < 0)%Z →
  all_candidates cands ≠ [] →
  (¬ exploits w → (run (select_slate s cands k) w).1 = Raise ValueError)
  ∧ (exploits w →
     ∃ ranking,
       (run (select_slate s cands (Z.of_nat (length (all_candidates cands)))) w).1
       = Return ranking
       ∧ length ranking = length (all_candidates cands)
       ∧ (run (select_slate s cands k) w).1
         = Return (take (length ranking - Z.to_nat (- k)) ranking)).
Proof.
  intros Hk Hne. unfold exploits, select_slate.
  pose proof (q_values_with_pos_ids (q_net (agent w)) s cands) as Hids.
  destruct (all_candidates cands) as [|c0 all] eqn:Hall; [done|].
  simpl. destruct (random (rng w)) as [u g]. simpl. split.
  - intros Hex. destruct (Py.Qlt_bool u (epsilon (agent w))); [|done]. simpl.
    destruct (sample _ _ _) as [[picked g']|] eqn:Es; [|done].
    apply mk_is_Some, sample_defined in Es. lia.
  - intros ->.
    set (sorted := Py.sort_desc snd (q_values_with_pos (q_net (agent w)) s cands)).
    assert (Hlen : length sorted = S (length all)).
    { unfold sorted. rewrite PyFacts.sort_desc_length.
      rewrite <- (length_map fst (q_values_with_pos _ _ _)), Hids. done. }
    exists (map fst sorted). split; [|split].
    + f_equal. unfold exploit_slate, Py.slice_to. fold sorted.
      destruct (0 <=? Z.pos (Pos.of_succ_nat (length all)))%Z eqn:E;
        [|apply Z.leb_gt in E; lia].
      rewrite take_ge; [done|]. lia.
    + by rewrite length_map.
    + f_equal. unfold exploit_slate, Py.slice_to. fold sorted.
      destruct (0 <=? k)%Z eqn:E; [apply Z.leb_le in E; lia|].
      rewrite length_map, <- (fmap_take fst).
      replace (Z.to_nat (Z.of_nat (length sorted) + k))
        with (length sorted - Z.to_nat (- k))%nat by lia.
      done.
Qed.

End SelectionMore.

(** ** Every selection names candidates that exist *)

Section SelectionDraws.
Context {Params OptState PyRng : Type}
  `{!QNetwork Params} `{!Optimizer Params OptState} `{!PyRandom PyRng}.
Context `{!PyRandomLaws PyRng} `{!PyDrawLaws PyRng}.
Local Abbreviation Agent := (Agent Params OptState).
Local Abbreviation World := (World Params OptState PyRng).

(** X23.  For a candidate list that is not empty, [select_action] always
    returns an index into the list, whether it explores or exploits, and
    leaves the agent as it is.  For the empty list it never returns: both
    branches raise. *)
Theorem select_action_index_in_range (s : State) (cs : list Emb) (w : World) :
  (cs ≠ [] →
   ∃ i g', run (select_action s cs) w = (Return i, mkWorld (agent w) g')
           ∧ (0 ≤ i < Z.of_nat (length cs))%Z)
  ∧ (cs = [] → ∃ e, (run (select_action s cs) w).1 = Raise e).
Proof.
  unfold select_action. simpl.
  destruct (random (rng w)) as [u g]. simpl.
  rewrite net_call_fixed_state.
  split.
  - intros Hne. destruct (Py.Qlt_bool u (epsilon (agent w))).
    + simpl. destruct (randrange_range (Z.of_nat (length cs)) g)
        as (i & g' & -> & Hi).
      { destruct cs; [done|]. simpl. lia. }
      by exists i, g'.
    + destruct (PyFacts.argmax_spec (map (q_value (q_net (agent w)) s) cs))
        as (i & m & -> & Hm & _).
      { by destruct cs. }
      simpl. exists (Z.of_nat i), g. split; [done|].
      apply lookup_lt_Some in Hm. rewrite length_map in Hm. lia.
  - intros ->. destruct (Py.Qlt_bool u (epsilon (agent w))); simpl.
    + rewrite randrange_empty by done. by eexists.
    + by eexists.
Qed.

(** X24.  When [select_slate] explores, with a requested size that is not
    negative and at least one candidate, it returns [min(max_recs, total)]
    identifiers, each of which names a candidate that exists, and, the keys
    of a dict being distinct, no identifier occurs twice; the agent is left
    as it is. *)
Theorem select_slate_explore_valid (s : State) (cands : CandDict) (k : Z)
    (w : World) :
  ¬ exploits w →
  (0 ≤ k)%Z →
  all_candidates cands ≠ [] →
  ∃ slate g',
    run (select_slate s cands k) w = (Return slate, mkWorld (agent w) g')
    ∧ Z.of_nat (length slate)
      = Z.min k (Z.of_nat (length (all_candidates cands)))
    ∧ (∀ ctype idx, (ctype, idx) ∈ slate →
         ∃ embs, (ctype, embs) ∈ cands ∧ (idx < length embs)%nat)
    ∧ (NoDup (map fst cands) → NoDup slate).
Proof.
  intros Hex Hk Hne. unfold exploits in Hex.
  assert (Hrun : run (select_slate s cands k) w
                 = match sample (all_candidates cands)
                           (Z.min k (Z.of_nat (length (all_candidates cands))))
                           (random (rng w)).2 with
                   | Some (l, g) => (Return l, mkWorld (agent w) g)
                   | None => (Raise ValueError,
                              mkWorld (agent w) (random (rng w)).2)
                   end).
  { unfold select_slate. destruct (all_candidates cands) as [|c0 all]; [done|].
    simpl. destruct (random (rng w)) as [u g]. simpl in *.
    destruct (Py.Qlt_bool u (epsilon (agent w))); [|done]. simpl.
    by destruct (sample _ _ _) as [[l g']|]. }
  rewrite Hrun.
  destruct (sample _ _ _) as [[slate g']|] eqn:Es.
  2:{ assert (Hs : is_Some (sample (all_candidates cands)
                     (Z.min k (Z.of_nat (length (all_candidates cands))))
                     (random (rng w)).2)) by (apply sample_defined; lia).
      rewrite Es in Hs. by destruct Hs. }
  exists slate, g'. split; [done|].
  pose proof (sample_length _ _ _ _ _ _ Es) as Hlen.
  pose proof (sample_submseteq _ _ _ _ _ _ Es) as Hsub.
  split; [done|]. split.
  - intros ct i Hin. apply elem_of_all_candidates.
    by eapply elem_of_submseteq.
  - intros Hnd. apply all_candidates_NoDup in Hnd.
    apply submseteq_Permutation in Hsub as [rest Hperm].
    rewrite Hperm in Hnd. by apply NoDup_app in Hnd as [? _].
Qed.

End SelectionDraws.

(** ** Checkpoints, the decay schedule, and sequences of calls *)

Section ScheduleMore.
Context {Params OptState PyRng : Type}
  `{!QNetwork Params} `{!Optimizer Params OptState} `{!PyRandom PyRng}.
Local Abbreviation Agent := (Agent Params OptState).
Local Abbreviation World := (World Params OptState PyRng).
Local Abbreviation Checkpoint := (Checkpoint Params OptState).

Lemma run_load_save (a : Agent) (w : World) :
  run (load (save a)) w
  = (Return tt,
     mkWorld
       (mkAgent (q_net a) (target_q_net a) (optimizer a)
          (buffer (agent w)) (gamma (agent w)) (batch_size (agent w))
          (epsilon a) (epsilon_min a) (epsilon_dec a)
          (update_freq (agent w)) (step_count a) (loss_type (agent w)))
       (rng w)).
Proof. done. Qed.

(** X10.  Loading the blob that [save] wrote for an agent [a] never fails
    and restores exactly the seven saved attributes of [a] (both networks,
    the optimizer state, the step counter and the three epsilon attributes);
    the buffer, the discount, the batch size, the update period and the loss
    kind are not part of the blob and stay those of the loading agent.  So
    saving an agent and loading the blob into the same agent changes
    nothing. *)
Theorem load_save_round_trip (a : Agent) (w : World) :
  run (load (save a)) w
  = (Return tt,
     mkWorld
       (mkAgent (q_net a) (target_q_net a) (optimizer a)
          (buffer (agent w)) (gamma (agent w)) (batch_size (agent w))
          (epsilon a) (epsilon_min a) (epsilon_dec a)
          (update_freq (agent w)) (step_count a) (loss_type (agent w)))
       (rng w))
  ∧ run (load (save (agent w))) w = (Return tt, w)
  ∧ save (agent (run (load (save a)) w).2) = save a.
Proof.
  split; [apply run_load_save|]. split.
  - rewrite run_load_save. by destruct w as [[] ?].
  - rewrite run_load_save. done.
Qed.

(** X11.  [load] is not atomic.  A blob with live parameters but without
    target parameters makes it raise [KeyError] after the live parameters
    have been overwritten; a blob that lacks only the optimizer state makes
    it raise after both networks have been overwritten.  Nothing else has
    changed then. *)
Theorem load_partial_on_missing_state (ck : Checkpoint) (w : World) (θ : Params) :
  ck_q_net_state ck = Some θ →
  (ck_target_net_state ck = None →
   run (load ck) w
   = (Raise (KeyError "target_net_state"),
      mkWorld (set_q_net θ (agent w)) (rng w)))
  ∧ (∀ θt, ck_target_net_state ck = Some θt →
       ck_optimizer_state ck = None →
       run (load ck) w
       = (Raise (KeyError "optimizer_state"),
          mkWorld (set_target_q_net θt (set_q_net θ (agent w))) (rng w))).
Proof.
  intros Hq. unfold load. rewrite Hq. split.
  - intros ->. done.
  - intros θt -> ->. done.
Qed.

Lemma select_action_depends (a1 a2 : Agent) (g : PyRng) s cs :
  q_net a1 = q_net a2 → epsilon a1 = epsilon a2 →
  (run (select_action s cs) (mkWorld a1 g)).1
  = (run (select_action s cs) (mkWorld a2 g)).1.
Proof.
  intros Hq He. unfold select_action. simpl.
  destruct (random g) as [u g']. simpl. rewrite Hq, He.
  destruct (Py.Qlt_bool u (epsilon a2)).
  - simpl. destruct (randrange _ _) as [[i g'']|]; done.
  - destruct (Py.argmax _); done.
Qed.

Lemma select_slate_depends (a1 a2 : Agent) (g : PyRng) s cands k :
  q_net a1 = q_net a2 → epsilon a1 = epsilon a2 →
  (run (select_slate s cands k) (mkWorld a1 g)).1
  = (run (select_slate s cands k) (mkWorld a2 g)).1.
Proof.
  intros Hq He. unfold select_slate.
  destruct (all_candidates cands) as [|c0 all]; [done|]. simpl.
  destruct (random g) as [u g']. simpl. rewrite Hq, He.
  destruct (Py.Qlt_bool u (epsilon a2)); [|done].
  simpl. destruct (sample _ _ _) as [[picked g'']|]; done.
Qed.

(** X12.  An agent restored from the blob of agent [a] selects as [a]
    does: from the same state of the random generator, [select_action] and
    [select_slate] give the same outcome in the restoring agent after
    [load (save a)] as in [a], whatever the restoring agent was before. *)
Theorem restored_agent_selects_alike (a : Agent) (w : World) :
  (∀ s cs,
     (run (select_action s cs) (run (load (save a)) w).2).1
     = (run (select_action s cs) (mkWorld a (rng w))).1)
  ∧ (∀ s cands k,
       (run (select_slate s cands k) (run (load (save a)) w).2).1
       = (run (select_slate s cands k) (mkWorld a (rng w))).1).
Proof.
  rewrite run_load_save. simpl. split.
  - intros s cs. by apply select_action_depends.
  - intros s cands k. by apply select_slate_depends.
Qed.

(** *** What a sequence of calls can change *)

Lemma learn_keeps (w : World) :
  buffer (agent (run learn w).2) = buffer (agent w)
  ∧ epsilon (agent (run learn w).2) = epsilon (agent w)
  ∧ epsilon_min (agent (run learn w).2) = epsilon_min (agent w)
  ∧ epsilon_dec (agent (run learn w).2) = epsilon_dec (agent w)
  ∧ same_settings (agent w) (agent (run learn w).2)
  ∧ (step_count (agent w) ≤ step_count (agent (run learn w).2))%Z.
Proof.
  rewrite run_learn. cbv zeta.
  destruct (buffer_len (buffer (agent w)) <? batch_size (agent w))%Z.
  { simpl. unfold same_settings. repeat split; lia. }
  destruct (sample _ _ _) as [[batch g]|].
  2:{ simpl. unfold same_settings. repeat split; lia. }
  assert (Hf : ∀ f,
    let r := finish_step f (set_step_count (step_count (agent w) + 1) (agent w))
                         batch g in
    buffer (agent r.2) = buffer (agent w)
    ∧ epsilon (agent r.2) = epsilon (agent w)
    ∧ epsilon_min (agent r.2) = epsilon_min (agent w)
    ∧ epsilon_dec (agent r.2) = epsilon_dec (agent w)
    ∧ same_settings (agent w) (agent r.2)
    ∧ (step_count (agent w) ≤ step_count (agent r.2))%Z).
  { intros f.
    pose proof (finish_step_frame f
      (set_step_count (step_count (agent w) + 1) (agent w)) batch g) as Hfr.
    cbv zeta in *. unfold same_settings in *. simpl in Hfr.
    destruct Hfr as (? & ? & ? & ? & Hsc & ?). rewrite Hsc.
    intuition lia. }
  destruct (String.eqb (loss_type (agent w)) "mse"); [apply Hf|].
  destruct (String.eqb (loss_type (agent w)) "smooth_l1"); [apply Hf|].
  simpl. unfold same_settings. repeat split; lia.
Qed.

Lemma after_call_keeps (c : Call) (w : World) :
  same_settings (agent w) (agent (after_call c w))
  ∧ epsilon_min (agent (after_call c w)) = epsilon_min (agent w)
  ∧ epsilon_dec (agent (after_call c w)) = epsilon_dec (agent w)
  ∧ (step_count (agent w) ≤ step_count (agent (after_call c w)))%Z
  ∧ (c ≠ CallDecayEpsilon →
     epsilon (agent (after_call c w)) = epsilon (agent w))
  ∧ ((∀ e, c ≠ CallStore e) →
     buffer (agent (after_call c w)) = buffer (agent w))
  ∧ (c ≠ CallLearn →
     q_net (agent (after_call c w)) = q_net (agent w)
     ∧ target_q_net (agent (after_call c w)) = target_q_net (agent w)
     ∧ optimizer (agent (after_call c w)) = optimizer (agent w)
     ∧ step_count (agent (after_call c w)) = step_count (agent w)).
Proof.
  destruct c as [|e| |s cs|s cands k]; cbn [after_call].
  - destruct (learn_keeps w) as (Hb & He & Hm & Hd & Hs & Hsc).
    split; [done|]. split; [done|]. split; [done|]. split; [done|].
    split; [done|]. split; [done|]. intros Hne. done.
  - simpl. unfold same_settings.
    split; [done|]. split; [done|]. split; [done|]. split; [lia|].
    split; [done|]. split; [|done]. intros Hne. by destruct (Hne e).
  - simpl. unfold same_settings.
    split; [done|]. split; [done|]. split; [done|]. split; [lia|].
    split; [intros Hne; done|]. done.
  - rewrite select_action_agent. unfold same_settings.
    split; [done|]. split; [done|]. split; [done|]. split; [lia|]. done.
  - rewrite select_slate_agent. unfold same_settings.
    split; [done|]. split; [done|]. split; [done|]. split; [lia|]. done.
Qed.

(** X14.  Along any sequence of [learn], [store], [decay_epsilon],
    [select_action] and [select_slate] calls, whatever their outcomes: the
    discount, the batch size, the update period, the loss kind, the epsilon
    floor and the decay rate never change, and the step counter never
    decreases; epsilon changes only through [decay_epsilon], the buffer only
    through [store], and the two networks, the optimizer state and the step
    counter only through [learn]. *)
Theorem after_calls_frame (cs : list Call) (w : World) :
  same_settings (agent w) (agent (after_calls cs w))
  ∧ epsilon_min (agent (after_calls cs w)) = epsilon_min (agent w)
  ∧ epsilon_dec (agent (after_calls cs w)) = epsilon_dec (agent w)
  ∧ (step_count (agent w) ≤ step_count (agent (after_calls cs w)))%Z
  ∧ (Forall (λ c, c ≠ CallDecayEpsilon) cs →
     epsilon (agent (after_calls cs w)) = epsilon (agent w))
  ∧ (Forall (λ c, ∀ e, c ≠ CallStore e) cs →
     buffer (agent (after_calls cs w)) = buffer (agent w))
  ∧ (Forall (λ c, c ≠ CallLearn) cs →
     q_net (agent (after_calls cs w)) = q_net (agent w)
     ∧ target_q_net (agent (after_calls cs w)) = target_q_net (agent w)
     ∧ optimizer (agent (after_calls cs w)) = optimizer (agent w)
     ∧ step_count (agent (after_calls cs w)) = step_count (agent w)).
Proof.
  revert w. induction cs as [|c cs IH]; intros w.
  - simpl. unfold same_settings. repeat split; try done; lia.
  - cbn [after_calls].
    destruct (IH (after_call c w)) as (Hs & Hm & Hd & Hsc & He & Hb & Hq).
    destruct (after_call_keeps c w) as (Hs' & Hm' & Hd' & Hsc' & He' & Hb' & Hq').
    unfold same_settings in *.
    split; [intuition congruence|].
    split; [congruence|]. split; [congruence|]. split; [lia|].
    split; [|split].
    + intros Hall. apply Forall_cons in Hall as [Hc Hall].
      rewrite He, He'; done.
    + intros Hall. apply Forall_cons in Hall as [Hc Hall].
      rewrite Hb, Hb'; done.
    + intros Hall. apply Forall_cons in Hall as [Hc Hall].
      destruct (Hq Hall) as (-> & -> & -> & ->). by apply Hq'.
Qed.

End ScheduleMore.

(** * Further properties of the response handler *)

Module HandlerMore.
Import Handler HandlerIO.

(** ** One response *)

Lemma Qtruncate_nonneg (q : Q) : 0 <= q → (0 ≤ Qtruncate q)%Z.
Proof.
  intros Hq. unfold Qtruncate.
  apply Qle_bool_iff in Hq. rewrite Hq.
  apply Qle_bool_iff in Hq.
  change 0%Z with (Qfloor 0). by apply Qfloor_resp_le.
Qed.

Lemma Qtruncate_zero (q : Q) : 0 <= q → q <= 0 → Qtruncate q = 0%Z.
Proof.
  intros H0 H1. unfold Qtruncate.
  apply Qle_bool_iff in H0. rewrite H0. apply Qle_bool_iff in H0.
  rewrite (Qfloor_comp q 0) by lra. done.
Qed.

(** The two corrections of the dwell time (lines 247-267) and the final
    [int()], on a number. *)
Lemma corrected_dwell (n : Num) (cl : bool) (dw : Z) :
  int_of_num
    (let n1 := if num_lt0 n then NInt 0 else n in
     if negb cl && num_gt0 n1 then NInt 0 else n1) = Return dw →
  (0 ≤ dw)%Z ∧ (cl = false → dw = 0%Z).
Proof.
  cbv zeta. destruct n as [z|[q| |neg]]; simpl.
  - destruct (Z.ltb_spec z 0) as [Hlt|Hge]; simpl.
    + rewrite andb_false_r. simpl. intros [= <-]. done.
    + destruct (Z.ltb_spec 0 z) as [Hpos|Hle]; destruct cl; simpl;
        intros [= <-]; split; try lia; try done.
  - destruct (Py.Qlt_bool q 0) eqn:E1; simpl.
    + rewrite andb_false_r. simpl. intros [= <-]. done.
    + apply PyFacts.Qlt_bool_false in E1.
      destruct (Py.Qlt_bool 0 q) eqn:E2; destruct cl; simpl; intros [= <-].
      * split; [by apply Qtruncate_nonneg|done].
      * done.
      * split; [by apply Qtruncate_nonneg|done].
      * apply PyFacts.Qlt_bool_false in E2.
        rewrite Qtruncate_zero by done. done.
  - rewrite andb_false_r. simpl. done.
  - destruct neg; simpl.
    + rewrite andb_false_r. simpl. intros [= <-]. done.
    + destruct cl; simpl; [done|]. intros [= <-]. done.
Qed.

Lemma parse_single_consistent (d : gmap string Json) (cl : bool) (dw : Z) :
  _parse_single_response_for_all d = Return (cl, dw) →
  (0 ≤ dw)%Z ∧ (cl = false → dw = 0%Z).
Proof.
  unfold _parse_single_response_for_all. cbv zeta.
  set (c := match dict_get_default d "clicked" (JBool false) with
            | JBool b => b
            | _ => false
            end).
  destruct (as_number _) as [n|].
  - destruct (int_of_num _) as [z|e] eqn:Hz; simpl; [|done].
    intros [= <- <-]. by apply (corrected_dwell n c).
  - simpl. rewrite andb_false_r. simpl. intros [= <- <-]. done.
Qed.

(** X15.  Whenever [_parse_single_response_for_all] returns, the dwell time
    it returns is not negative and is 0 unless the response is clicked, and
    the click is reported exactly when the response has the JSON value [true]
    under [clicked].  It raises exactly when the dwell value of the response
    is NaN, or is positive infinity in a clicked response. *)
Theorem parse_single_response_spec (d : gmap string Json) :
  (∀ cl dw, _parse_single_response_for_all d = Return (cl, dw) →
     (0 ≤ dw)%Z
     ∧ (cl = false → dw = 0%Z)
     ∧ (cl = true ↔ d !! "clicked" = Some (JBool true)))
  ∧ ((∃ e, _parse_single_response_for_all d = Raise e)
     ↔ (dwell_field d = JFloat NaN
        ∨ (dwell_field d = JFloat (Infinity false)
           ∧ d !! "clicked" = Some (JBool true)))).
Proof.
  split.
  - intros cl dw Hrun.
    destruct (parse_single_consistent d cl dw Hrun) as [H0 Hc].
    split; [done|]. split; [done|].
    revert Hrun. unfold _parse_single_response_for_all, dict_get_default.
    cbv zeta. destruct (int_of_num _) as [z|e]; simpl; [|done].
    intros [= <- _].
    destruct (d !! "clicked") as [[| [] | | | | |]|]; simpl; split; done.
  - unfold _parse_single_response_for_all. cbv zeta.
    change (dict_get_default d "dwell_time_seconds"
              (dict_get_default d "dwell_time" (JInt 0))) with (dwell_field d).
    set (cl := match dict_get_default d "clicked" (JBool false) with
               | JBool b => b
               | _ => false
               end).
    assert (Hcl : cl = true ↔ d !! "clicked" = Some (JBool true)).
    { subst cl. unfold dict_get_default.
      destruct (d !! "clicked") as [[| [] | | | | |]|]; simpl; split; done. }
    clearbody cl. generalize (dwell_field d). intros v.
    destruct v as [| b | z | [q| |neg] | s | l | d']; simpl;
      rewrite ?andb_false_r; simpl.
    all: try (split; [intros [e He]; done|intros [Hv|[Hv _]]; done]).
    + destruct (b : bool); simpl; destruct cl; simpl;
        (split; [intros [e He]; done|intros [Hv|[Hv _]]; done]).
    + destruct (z <? 0)%Z; simpl; rewrite ?andb_false_r; simpl;
        [split; [intros [e He]; done|intros [Hv|[Hv _]]; done]|].
      destruct (negb cl && (0 <? z)%Z); simpl;
        (split; [intros [e He]; done|intros [Hv|[Hv _]]; done]).
    + destruct (Py.Qlt_bool q 0); simpl; rewrite ?andb_false_r; simpl;
        [split; [intros [e He]; done|intros [Hv|[Hv _]]; done]|].
      destruct (negb cl && Py.Qlt_bool 0 q); simpl;
        (split; [intros [e He]; done|intros [Hv|[Hv _]]; done]).
    + split; [intros _; by left|intros _; by eexists].
    + destruct neg; simpl; rewrite ?andb_false_r; simpl.
      * split; [intros [e He]; done|intros [Hv|[Hv _]]; done].
      * destruct cl; simpl.
        -- split; [intros _; right; split; [done|by apply Hcl]|].
           intros _. by eexists.
        -- split; [intros [e He]; done|].
           intros [Hv|[_ Hv]]; [done|]. apply Hcl in Hv. done.
Qed.

(** ** When the extraction returns, and what it returns *)

Lemma extract_step_accepts ids result i resp c out :
  ids !! i = Some c →
  extract_step ids result i resp = Return out →
  accepted_response resp.
Proof.
  intros Hc. destruct resp as [| b | z | f | s | l | d]; simpl; try done.
  destruct (py_int (dict_get d "content_id")) as [z|e]; simpl; [|done].
  rewrite Hc.
  destruct (_parse_single_response_for_all d) as [[cl dw]|e]; simpl; [|done].
  intros _. split; by eexists.
Qed.

Lemma extract_loop_accepts ids responses : ∀ result i out,
  (i + length responses ≤ length ids)%nat →
  extract_loop ids result i responses = Return out →
  Forall accepted_response responses.
Proof.
  induction responses as [|resp rest IH]; intros result i out Hlen Hrun.
  - constructor.
  - simpl in Hlen, Hrun.
    destruct (ids !! i) as [c|] eqn:Hc.
    2:{ apply lookup_ge_None in Hc. lia. }
    destruct (extract_step ids result i resp) as [result'|e] eqn:Hs; [|done].
    simpl in Hrun. constructor.
    + by eapply extract_step_accepts.
    + eapply (IH result' (S i)); [lia|done].
Qed.

Lemma response_content_ids_inv result s :
  response_content_ids result = Return s →
  Forall (λ r, ∃ z, py_int (content_id r) = Return z) result.
Proof.
  revert s. induction result as [|r rest IH]; intros s Hrun; [constructor|].
  simpl in Hrun.
  destruct (py_int (content_id r)) as [z|e] eqn:Hz; simpl in Hrun; [|done].
  destruct (response_content_ids rest) as [s'|e]; simpl in Hrun; [|done].
  constructor; [by eexists|by eapply IH].
Qed.

(** X16.  The count check followed by the extraction returns only if the
    number of responses equals the number of contents, every object among the
    responses has a [content_id] and a dwell time that [int()] accepts, and
    every content has an id that [int()] accepts: a missing or null id, or a
    missing, null or non-numeric [content_id], makes it raise. *)
Theorem extraction_returns_only_if (responses : list Json)
    (all_contents : list (gmap string Json)) (out : list ContentResponse) :
  validate_and_extract responses all_contents = Return out →
  length responses = length all_contents
  ∧ Forall accepted_response responses
  ∧ Forall accepted_content all_contents.
Proof.
  unfold validate_and_extract, _validate_response_count,
    _extract_all_content_responses.
  set (ids := map (λ content, dict_get content "id") all_contents).
  assert (Hids : length ids = length all_contents)
    by (unfold ids; by rewrite length_map).
  destruct (Nat.eqb_spec (length responses) (length all_contents))
    as [Hlen|_]; [|done].
  simpl. intros Hrun. split; [done|].
  destruct (extract_loop ids [] 0 responses) as [result|e] eqn:Hloop; [|done].
  simpl in Hrun.
  destruct (response_content_ids result) as [s|e] eqn:Hset; [|done].
  split.
  - apply (extract_loop_accepts ids responses [] 0%nat result); [lia|done].
  - apply response_content_ids_inv in Hset.
    apply (HandlerFacts.extract_loop_spec ids responses []) in Hloop;
      [|simpl; lia].
    destruct Hloop as (Hres & _ & Hall). simpl in Hres, Hall.
    apply Forall_lookup. intros j content Hj.
    destruct (responses !! j) as [resp|] eqn:Hresp.
    2:{ apply lookup_ge_None in Hresp. apply lookup_lt_Some in Hj. lia. }
    destruct (Hall j resp Hresp) as (r & c & Hr & Hc & [Hid _]).
    rewrite Forall_lookup in Hset. destruct (Hset j r Hr) as [z Hz].
    unfold ids in Hc. rewrite list_lookup_fmap, Hj in Hc.
    injection Hc as <-. exists z. by rewrite <- Hid.
Qed.

Lemma extract_loop_app ids r1 : ∀ r2 result i,
  extract_loop ids result i (r1 ++ r2)
  = match extract_loop ids result i r1 with
    | Return result' => extract_loop ids result' (i + length r1) r2
    | Raise e => Raise e
    end.
Proof.
  induction r1 as [|resp rest IH]; intros r2 result i; simpl.
  - by rewrite Nat.add_0_r.
  - destruct (extract_step ids result i resp) as [result'|e]; simpl; [|done].
    rewrite IH. by replace (S i + length rest)%nat with (i + S (length rest))%nat
      by lia.
Qed.

(** Responses beyond the last content are converted and dropped. *)
Lemma extract_loop_beyond ids responses : ∀ result i,
  (length ids ≤ i)%nat →
  Forall accepted_response responses →
  extract_loop ids result i responses = Return result.
Proof.
  induction responses as [|resp rest IH]; intros result i Hi Hacc; [done|].
  apply Forall_cons in Hacc as [Hresp Hrest]. simpl.
  assert (Hnone : ids !! i = None) by (by apply lookup_ge_None_2).
  assert (Hstep : extract_step ids result i resp = Return result).
  { destruct resp as [| b | z | f | s | l | d]; simpl; rewrite Hnone; try done.
    destruct Hresp as [[z ->] _]. done. }
  rewrite Hstep. simpl. apply IH; [lia|done].
Qed.

Lemma response_content_ids_ints result (zs : list Z) :
  Forall2 (λ r z, content_id r = JInt z) result zs →
  response_content_ids result = Return (list_to_set zs).
Proof.
  induction 1 as [|r z rest zs' Hr _ IH]; [done|].
  simpl. rewrite Hr. simpl. rewrite IH. done.
Qed.

(** The second loop appends the default entry of every content whose id is
    not found among the ids of the entries. *)
Lemma add_missing_filter (s : gset Z) contents : ∀ result,
  Forall (λ c, ∃ b, in_int_set (dict_get c "id") s = Return b) contents →
  add_missing s result contents
  = Return (result
            ++ map default_response
                 (List.filter
                    (λ j, match in_int_set j s with
                          | Return true => false
                          | _ => true
                          end)
                    (map (λ c, dict_get c "id") contents))).
Proof.
  induction contents as [|c rest IH]; intros result Hall; simpl.
  - by rewrite app_nil_r.
  - apply Forall_cons in Hall as [[b Hb] Hrest].
    rewrite Hb. simpl. destruct b.
    + by apply IH.
    + rewrite IH by done. by rewrite <- (assoc_L (++)).
Qed.

Lemma filter_all_in (s : gset Z) (l : list Z) :
  Forall (λ z, z ∈ s) l →
  List.filter (λ z, negb (bool_decide (z ∈ s))) l = [].
Proof.
  induction 1 as [|z l Hz _ IH]; [done|]. simpl.
  by rewrite bool_decide_true.
Qed.

Lemma filter_none_in (s : gset Z) (l : list Z) :
  Forall (λ z, z ∉ s) l →
  List.filter (λ z, negb (bool_decide (z ∈ s))) l = l.
Proof.
  induction 1 as [|z l Hz _ IH]; [done|]. simpl.
  rewrite bool_decide_false by done. simpl. by rewrite IH.
Qed.

Lemma filter_not_in_prefix (zs : list Z) (m : nat) :
  NoDup zs →
  List.filter (λ z, negb (bool_decide (z ∈ (list_to_set (take m zs) : gset Z)))) zs
  = drop m zs.
Proof.
  intros Hnd.
  rewrite <- (take_drop m zs) in Hnd. apply NoDup_app in Hnd as (_ & Hdisj & _).
  set (s := (list_to_set (take m zs) : gset Z)).
  transitivity
    (List.filter (λ z, negb (bool_decide (z ∈ s))) (take m zs ++ drop m zs));
    [by rewrite take_drop|].
  rewrite List.filter_app, filter_all_in, filter_none_in; [done| |].
  - apply Forall_forall. intros z Hz Hz'.
    apply elem_of_list_to_set in Hz'. by apply (Hdisj z).
  - apply Forall_forall. intros z Hz. by apply elem_of_list_to_set.
Qed.

Lemma filter_map_JInt (s : gset Z) (zs : list Z) :
  List.filter (λ j, match in_int_set j s with
                    | Return true => false
                    | _ => true
                    end) (map JInt zs)
  = map JInt (List.filter (λ z, negb (bool_decide (z ∈ s))) zs).
Proof.
  induction zs as [|z zs IH]; [done|]. simpl.
  destruct (bool_decide (z ∈ s)); simpl; by rewrite IH.
Qed.

(** X17.  When the ids of the contents are distinct integers and every
    response is acceptable, [_extract_all_content_responses] returns one
    entry per content, in the order of the contents, for any number of
    responses: the first [min(#responses, #contents)] entries are made from
    the responses at their positions, the contents without a response get the
    default entry, and responses beyond the last content are dropped. *)
Theorem extraction_covers_contents (responses : list Json)
    (all_contents : list (gmap string Json)) (ids : list Z) :
  map (λ content, dict_get content "id") all_contents = map JInt ids →
  NoDup ids →
  Forall accepted_response responses →
  ∃ matched,
    _extract_all_content_responses responses all_contents
    = Return (matched ++ map (λ z, default_response (JInt z))
                             (drop (length responses) ids))
    ∧ length matched = (length responses `min` length all_contents)%nat
    ∧ length (matched ++ map (λ z, default_response (JInt z))
                             (drop (length responses) ids))
      = length all_contents
    ∧ ∀ i r, matched !! i = Some r →
        ∃ resp z, responses !! i = Some resp ∧ ids !! i = Some z
                  ∧ entry_of_response resp (JInt z) r.
Proof.
  intros Hids Hnd Hacc. unfold _extract_all_content_responses. rewrite Hids.
  assert (Hn : length all_contents = length ids).
  { rewrite <- (length_map (λ content, dict_get content "id")), Hids.
    by rewrite length_map. }
  set (n := length all_contents) in *.
  set (r1 := take n responses). set (r2 := drop n responses).
  assert (Hr1 : length r1 = (length responses `min` n)%nat)
    by (unfold r1; rewrite length_take; lia).
  assert (Hacc1 : Forall accepted_response r1) by (by apply Forall_take).
  assert (Hacc2 : Forall accepted_response r2) by (by apply Forall_drop).
  destruct (HandlerFacts.extract_loop_returns (map JInt ids) r1 [] 0%nat Hacc1)
    as [matched Hloop].
  pose proof Hloop as Hspec.
  apply (HandlerFacts.extract_loop_spec (map JInt ids) r1 []) in Hspec;
    [|simpl; rewrite length_map; lia].
  destruct Hspec as (Hlen & _ & Hall). simpl in Hlen, Hall.
  assert (Hfull : extract_loop (map JInt ids) [] 0 responses = Return matched).
  { rewrite <- (take_drop n responses). fold r1 r2.
    rewrite extract_loop_app, Hloop. simpl.
    destruct r2 as [|x r2'] eqn:Hr2; [done|].
    apply extract_loop_beyond; [|done].
    assert (n < length responses)%nat.
    { destruct (decide (n < length responses)%nat) as [|Hge]; [done|].
      unfold r2 in Hr2. rewrite drop_ge in Hr2 by lia. done. }
    rewrite length_map. lia. }
  rewrite Hfull. simpl.
  assert (Hentries : ∀ i r, matched !! i = Some r →
            ∃ resp z, responses !! i = Some resp ∧ ids !! i = Some z
                      ∧ entry_of_response resp (JInt z) r).
  { intros i r Hr.
    assert (Hi : (i < length r1)%nat) by (apply lookup_lt_Some in Hr; lia).
    destruct (r1 !! i) as [resp|] eqn:Hresp.
    2:{ apply lookup_ge_None in Hresp. lia. }
    destruct (Hall i resp Hresp) as (r' & c & Hr' & Hc & He).
    rewrite Hr in Hr'. injection Hr' as <-.
    rewrite list_lookup_fmap in Hc.
    destruct (ids !! i) as [z|] eqn:Hz; [|done]. injection Hc as <-.
    exists resp, z. split; [|done].
    unfold r1 in Hresp. by apply lookup_take_Some in Hresp as [? _]. }
  assert (Hset : response_content_ids matched
                 = Return (list_to_set (take (length responses) ids))).
  { replace (take (length responses) ids) with (take (length matched) ids).
    2:{ rewrite Hlen, Hr1.
        destruct (Nat.min_spec (length responses) n) as [[_ ->]|[Hle ->]];
          [done|].
        rewrite !take_ge by lia. done. }
    apply response_content_ids_ints.
    apply Forall2_same_length_lookup. split.
    - rewrite length_take. lia.
    - intros i r z Hr Hz. apply lookup_take_Some in Hz as [Hz _].
      destruct (Hentries i r Hr) as (resp & z' & _ & Hz' & [Hid _]).
      rewrite Hz in Hz'. by injection Hz' as <-. }
  rewrite Hset. simpl.
  rewrite add_missing_filter.
  2:{ rewrite Forall_forall. intros c Hc.
      assert (Hin : dict_get c "id" ∈ map JInt ids).
      { rewrite <- Hids. apply list_elem_of_fmap. by exists c. }
      apply list_elem_of_fmap in Hin as (z & -> & _). simpl. by eexists. }
  rewrite Hids, filter_map_JInt, filter_not_in_prefix by done.
  rewrite map_map.
  exists matched. split; [done|]. split; [lia|]. split; [|done].
  rewrite length_app, length_map, length_drop. lia.
Qed.

Lemma filter_map_JStr (s : gset Z) (strs : list string) :
  List.filter (λ j, match in_int_set j s with
                    | Return true => false
                    | _ => true
                    end) (map JStr strs)
  = map JStr strs.
Proof. induction strs as [|x xs IH]; [done|]. simpl. by rewrite IH. Qed.

(** X18.  When the ids of the contents are numeric strings, every content
    gets two entries: with a response per content, the extraction returns the
    entries made from the responses followed by one more default entry for
    every content, because a string is never found among the [int] ids of the
    entries. *)
Theorem extraction_duplicates_string_ids (responses : list Json)
    (all_contents : list (gmap string Json)) (strs : list string) :
  map (λ content, dict_get content "id") all_contents = map JStr strs →
  Forall (λ s, is_Some (int_of_string s)) strs →
  length responses = length all_contents →
  Forall accepted_response responses →
  ∃ matched,
    validate_and_extract responses all_contents
    = Return (matched ++ map (λ s, default_response (JStr s)) strs)
    ∧ length matched = length all_contents
    ∧ (∀ i r, matched !! i = Some r →
         ∃ s, strs !! i = Some s ∧ content_id r = JStr s).
Proof.
  intros Hids Hnum Hlen Hacc.
  unfold validate_and_extract, _validate_response_count,
    _extract_all_content_responses.
  rewrite Hlen, Nat.eqb_refl, Hids. simpl.
  assert (Hn : length all_contents = length strs).
  { rewrite <- (length_map (λ content, dict_get content "id")), Hids.
    by rewrite length_map. }
  destruct (HandlerFacts.extract_loop_returns (map JStr strs) responses [] 0%nat
              Hacc) as [matched Hloop].
  rewrite Hloop. simpl.
  apply (HandlerFacts.extract_loop_spec (map JStr strs) responses []) in Hloop;
    [|simpl; rewrite length_map; lia].
  destruct Hloop as (Hml & _ & Hall). simpl in Hml, Hall.
  assert (Hentries : ∀ i r, matched !! i = Some r →
            ∃ s, strs !! i = Some s ∧ content_id r = JStr s).
  { intros i r Hr.
    destruct (responses !! i) as [resp|] eqn:Hresp.
    2:{ apply lookup_ge_None in Hresp. apply lookup_lt_Some in Hr. lia. }
    destruct (Hall i resp Hresp) as (r' & c & Hr' & Hc & [Hid _]).
    rewrite Hr in Hr'. injection Hr' as <-.
    rewrite list_lookup_fmap in Hc.
    destruct (strs !! i) as [s|] eqn:Hs; [|done]. injection Hc as <-.
    by exists s. }
  destruct (HandlerFacts.response_content_ids_returns matched) as [set Hset].
  { apply Forall_lookup. intros i r Hr.
    destruct (Hentries i r Hr) as (s & Hs & ->).
    rewrite Forall_lookup in Hnum. destruct (Hnum i s Hs) as [z Hz].
    exists z. simpl. by rewrite Hz. }
  rewrite Hset. simpl.
  rewrite add_missing_filter.
  2:{ rewrite Forall_forall. intros c Hc.
      assert (Hin : dict_get c "id" ∈ map JStr strs).
      { rewrite <- Hids. apply list_elem_of_fmap. by exists c. }
      apply list_elem_of_fmap in Hin as (z & -> & _). simpl. by eexists. }
  rewrite Hids, filter_map_JStr, map_map.
  exists matched. split; [done|]. split; [lia|done].
Qed.

(** ** The random fallbacks and the public method *)

Lemma add_missing_defaults ids contents : ∀ result out,
  add_missing ids result contents = Return out →
  ∃ extra, out = result ++ extra
           ∧ Forall (λ r, clicked r = false ∧ dwell_time r = 0%Z) extra.
Proof.
  induction contents as [|content rest IH]; intros result out Hrun; simpl in Hrun.
  - injection Hrun as <-. exists []. by rewrite app_nil_r.
  - destruct (in_int_set (dict_get content "id") ids) as [[|]|e]; simpl in Hrun;
      [ by apply IH | | done ].
    apply IH in Hrun as (extra & -> & Hextra).
    eexists. rewrite <- (assoc_L (++)). split; [done|].
    constructor; [done|done].
Qed.

(** What a returned extraction looks like, entry by entry. *)
Lemma validate_and_extract_entries (responses : list Json)
    (all_contents : list (gmap string Json)) (out : list ContentResponse) :
  validate_and_extract responses all_contents = Return out →
  (∀ i c, all_contents !! i = Some c →
     ∃ r, out !! i = Some r ∧ content_id r = dict_get c "id")
  ∧ Forall dwell_consistent out.
Proof.
  unfold validate_and_extract, _validate_response_count,
    _extract_all_content_responses.
  set (ids := map (λ content, dict_get content "id") all_contents).
  assert (Hids : length ids = length all_contents)
    by (unfold ids; by rewrite length_map).
  destruct (Nat.eqb_spec (length responses) (length all_contents))
    as [Hlen|_]; [|done].
  simpl. intros Hrun.
  destruct (extract_loop ids [] 0 responses) as [result|e] eqn:Hloop; [|done].
  simpl in Hrun.
  destruct (response_content_ids result) as [s|e] eqn:Hset; [|done].
  simpl in Hrun.
  apply add_missing_defaults in Hrun as (extra & -> & Hextra).
  apply (HandlerFacts.extract_loop_spec ids responses []) in Hloop;
    [|simpl; lia].
  destruct Hloop as (Hres & _ & Hall). simpl in Hres, Hall.
  split.
  - intros i c Hc.
    destruct (responses !! i) as [resp|] eqn:Hresp.
    2:{ apply lookup_ge_None in Hresp. apply lookup_lt_Some in Hc. lia. }
    destruct (Hall i resp Hresp) as (r & c' & Hr & Hc' & [Hid _]).
    unfold ids in Hc'. rewrite list_lookup_fmap, Hc in Hc'. injection Hc' as <-.
    exists r. split; [|done]. by apply lookup_app_l_Some.
  - apply Forall_app. split.
    + apply Forall_lookup. intros i r Hr.
      destruct (responses !! i) as [resp|] eqn:Hresp.
      2:{ apply lookup_ge_None in Hresp. apply lookup_lt_Some in Hr. lia. }
      destruct (Hall i resp Hresp) as (r' & c & Hr' & _ & [_ He]).
      rewrite Hr in Hr'. injection Hr' as <-.
      destruct resp as [| b | z | f | str | l | d];
        try (rewrite He; split; done).
      by apply (parse_single_consistent d).
    + eapply Forall_impl; [exact Hextra|].
      intros r [Hcl Hdw]. split; [lia|done].
Qed.

Section FallbackFacts.
Context {PyRng : Type} `{!PyRandom PyRng} `{!PyRandInt PyRng} `{!JsonDecoder}.
Context `{!PyRandIntLaws PyRng}.

Lemma fallback_loop_spec (all_contents : list (gmap string Json)) :
  ∀ (responses : list ContentResponse) (g : PyRng),
  ∃ out g',
    run (fallback_loop responses all_contents) g = (Return (responses ++ out), g')
    ∧ Forall2 (λ r c, content_id r = dict_get c "id"
                      ∧ if clicked r then (60 ≤ dwell_time r ≤ 300)%Z
                        else dwell_time r = 0%Z) out all_contents.
Proof.
  induction all_contents as [|c rest IH]; intros responses g.
  - exists [], g. rewrite app_nil_r. split; [done|constructor].
  - cbn [fallback_loop]. unfold mbind, act_bind. cbn [run].
    unfold rand_random at 1. cbn [run].
    destruct (random g) as [u g1].
    destruct (Py.Qlt_bool u 0.3) eqn:Hu.
    + unfold rand_randint at 1. cbn [run].
      destruct (randint_range 60 300 g1) as (n & g2 & -> & Hn); [lia|].
      destruct (IH (responses ++ [mkContentResponse (dict_get c "id") true n]) g2)
        as (out & g' & Hrun & Hout).
      eexists (_ :: out), g'. split.
      * rewrite Hrun. by rewrite <- (assoc_L (++)).
      * constructor; [|done]. simpl. done.
    + cbn [mret act_ret run].
      destruct (IH (responses ++ [mkContentResponse (dict_get c "id") false 0]) g1)
        as (out & g' & Hrun & Hout).
      eexists (_ :: out), g'. split.
      * rewrite Hrun. by rewrite <- (assoc_L (++)).
      * constructor; [|done]. simpl. done.
Qed.

(** X19.  [_create_fallback_all_responses] never raises and returns one
    entry per content, in the order of the contents, with the id of the
    content; a clicked entry has a dwell time from 60 to 300 seconds, an entry
    that is not clicked has dwell time 0. *)
Theorem fallback_all_responses_spec (all_contents : list (gmap string Json))
    (g : PyRng) :
  ∃ out g',
    run (_create_fallback_all_responses all_contents) g = (Return out, g')
    ∧ Forall2 (λ r c, content_id r = dict_get c "id"
                      ∧ if clicked r then (60 ≤ dwell_time r ≤ 300)%Z
                        else dwell_time r = 0%Z) out all_contents.
Proof.
  destruct (fallback_loop_spec all_contents [] g) as (out & g' & Hrun & Hout).
  by exists out, g'.
Qed.

(** X20.  [extract_all_responses] never raises.  Its result has, at the
    position of every content, an entry with the id of that content, and in
    every entry the dwell time is not negative and is 0 unless the entry is
    clicked.  When the parsing, the count check and the extraction succeed,
    their result is returned as it is and no random number is drawn;
    otherwise the result has exactly one entry per content. *)
Theorem extract_all_responses_total (llm_raw_text : string)
    (all_contents : list (gmap string Json)) (g : PyRng) :
  ∃ out g',
    run (extract_all_responses llm_raw_text all_contents) g = (Return out, g')
    ∧ (∀ i c, all_contents !! i = Some c →
         ∃ r, out !! i = Some r ∧ content_id r = dict_get c "id")
    ∧ Forall dwell_consistent out
    ∧ match try_extract llm_raw_text all_contents with
      | Return result => out = result ∧ g' = g
      | Raise _ => length out = length all_contents
      end.
Proof.
  unfold extract_all_responses.
  destruct (try_extract llm_raw_text all_contents) as [result|e] eqn:Htry.
  - exists result, g. split; [done|].
    unfold try_extract in Htry.
    destruct (_parse_json llm_raw_text) as [parsed|e]; [|done].
    simpl in Htry.
    destruct (py_items parsed) as [items|e]; [|done].
    simpl in Htry.
    destruct (validate_and_extract_entries items all_contents result Htry)
      as [Hpos Hdw].
    done.
  - destruct (fallback_loop_spec all_contents [] g) as (out & g' & Hrun & Hout).
    exists out, g'. split; [done|]. split; [|split].
    + intros i c Hc.
      destruct (Forall2_lookup_r _ _ _ _ _ Hout Hc) as (r & Hr & Hid & _).
      by exists r.
    + eapply Forall2_Forall_l; [exact Hout|].
      apply Forall_forall. intros c _ r [_ Hr]. unfold dwell_consistent.
      destruct (clicked r); [split; [lia|done]|split; [lia|done]].
    + by apply Forall2_length in Hout.
Qed.

End FallbackFacts.

Section FallbackResponseFacts.
Context {PyRng : Type} `{!PyRandom PyRng} `{!PyRandInt PyRng}.
Context `{!PyRandomLaws PyRng} `{!PyRandIntLaws PyRng}.

(** X21.  [create_fallback_response] never raises: it returns "CLICK" with
    a dwell time from 60 to 600 when the draw is below the click probability,
    and "VIEW" with a dwell time from 5 to 300 otherwise.  With a probability
    of 0 or less it always returns "VIEW", with 1 or more always "CLICK". *)
Theorem create_fallback_response_spec (use_click_probability : Q) (g : PyRng) :
  ∃ event_type dwell g',
    run (create_fallback_response use_click_probability) g
    = (Return (event_type, dwell), g')
    ∧ ((event_type = "CLICK" ∧ (random g).1 < use_click_probability
        ∧ (60 ≤ dwell ≤ 600)%Z)
       ∨ (event_type = "VIEW" ∧ use_click_probability <= (random g).1
          ∧ (5 ≤ dwell ≤ 300)%Z))
    ∧ (use_click_probability <= 0 → event_type = "VIEW")
    ∧ (1 <= use_click_probability → event_type = "CLICK").
Proof.
  unfold create_fallback_response, mbind, act_bind. cbn [run].
  unfold rand_random at 1. cbn [run].
  destruct (random_unit g) as [H0 H1].
  destruct (random g) as [u g1]. cbn [fst] in *.
  destruct (Py.Qlt_bool u use_click_probability) eqn:Hu.
  - apply PyFacts.Qlt_bool_true in Hu.
    change (String.eqb "CLICK" "CLICK") with true. cbv iota.
    unfold rand_randint at 1. cbn [run].
    destruct (randint_range 60 600 g1) as (n & g2 & -> & Hn); [lia|].
    cbn [mret act_ret run].
    exists "CLICK", n, g2. split; [done|]. split; [left; done|].
    split; [intros Hp; lra|done].
  - apply PyFacts.Qlt_bool_false in Hu.
    change (String.eqb "VIEW" "CLICK") with false. cbv iota.
    unfold rand_randint at 1. cbn [run].
    destruct (randint_range 5 300 g1) as (n & g2 & -> & Hn); [lia|].
    cbn [mret act_ret run].
    exists "VIEW", n, g2. split; [done|]. split; [right; done|].
    split; [done|intros Hp; lra].
Qed.

End FallbackResponseFacts.

(** ** Markdown fences *)

Lemma lstrip_app_space (ws l : list ascii) :
  whitespace ws → lstrip (ws ++ l) = lstrip l.
Proof. induction 1 as [|c ws Hc _ IH]; [done|]. simpl. by rewrite Hc. Qed.

Lemma lstrip_nonspace (c : ascii) (l : list ascii) :
  is_space c = false → lstrip (c :: l) = c :: l.
Proof. intros Hc. simpl. by rewrite Hc. Qed.

Lemma strip_between (ws1 mid ws4 : list ascii) c r c' r' :
  whitespace ws1 → whitespace ws4 →
  mid = c :: r → is_space c = false →
  reverse mid = c' :: r' → is_space c' = false →
  strip (ws1 ++ mid ++ ws4) = mid.
Proof.
  intros H1 H4 Hmid Hc Hrev Hc'. unfold strip.
  rewrite lstrip_app_space by done.
  rewrite Hmid at 1. rewrite <- app_comm_cons, lstrip_nonspace by done.
  rewrite app_comm_cons, <- Hmid, reverse_app.
  rewrite lstrip_app_space by (by apply Forall_reverse).
  rewrite Hrev, lstrip_nonspace by done.
  by rewrite <- Hrev, reverse_involutive.
Qed.

Lemma skip_json_tag_other (c : ascii) (r : list ascii) :
  c ≠ "j"%char → skip_json_tag (c :: r) = c :: r.
Proof.
  destruct c as [[] [] [] [] [] [] [] []]; intros Hc; try reflexivity.
  by destruct Hc.
Qed.

Lemma strip_open_fence_other (c : ascii) (rest : list ascii) :
  c ≠ "`"%char → strip_open_fence (c :: rest) = c :: rest.
Proof.
  destruct c as [[] [] [] [] [] [] [] []]; intros Hc; try reflexivity.
  by destruct Hc.
Qed.

Lemma strip_open_fence_fenced (tag ws : list ascii) c rest :
  whitespace ws → is_space c = false →
  (tag = list_ascii_of_string "json"
   ∨ (tag = [] ∧ (ws ≠ [] ∨ c ≠ "j"%char))) →
  strip_open_fence (fence ++ tag ++ ws ++ c :: rest) = c :: rest.
Proof.
  intros Hws Hc Htag.
  change (strip_open_fence (fence ++ tag ++ ws ++ c :: rest))
    with (lstrip (skip_json_tag (tag ++ ws ++ c :: rest))).
  destruct Htag as [->|[-> Hor]].
  - change (skip_json_tag (list_ascii_of_string "json" ++ ws ++ c :: rest))
      with (ws ++ c :: rest).
    by rewrite lstrip_app_space, lstrip_nonspace.
  - rewrite app_nil_l. destruct ws as [|w ws'].
    + destruct Hor as [Hne|Hj]; [done|].
      rewrite app_nil_l, skip_json_tag_other by done.
      by apply lstrip_nonspace.
    + rewrite <- app_comm_cons, skip_json_tag_other.
      * rewrite app_comm_cons. by rewrite lstrip_app_space, lstrip_nonspace.
      * apply Forall_cons in Hws as [Hw _]. intros ->. done.
Qed.

Lemma strip_close_fence_fenced (l ws : list ascii) c r :
  whitespace ws → reverse l = c :: r → is_space c = false →
  strip_close_fence (l ++ ws ++ fence) = l.
Proof.
  intros Hws Hrev Hc. unfold strip_close_fence.
  rewrite !reverse_app.
  change (reverse fence) with fence. unfold fence. simpl app.
  cbv iota beta.
  rewrite lstrip_app_space by (by apply Forall_reverse).
  rewrite Hrev, lstrip_nonspace by done.
  by rewrite <- Hrev, reverse_involutive.
Qed.

Lemma strip_close_fence_other (l : list ascii) c r :
  reverse l = c :: r → is_space c = false → c ≠ "`"%char →
  strip_close_fence l = l.
Proof.
  intros Hrev Hs Hc. unfold strip_close_fence. rewrite Hrev. clear Hrev.
  destruct c as [[] [] [] [] [] [] [] []]; try reflexivity;
    try discriminate Hs; by destruct Hc.
Qed.

(** What is left of a text for [json.loads]. *)
Lemma unfenced_fenced (ws1 opening body closing ws4 : list ascii) :
  whitespace ws1 → whitespace ws4 →
  opening_fence opening body → closing_fence closing → bare body →
  unfenced (ws1 ++ opening ++ body ++ closing ++ ws4) = body.
Proof.
  intros H1 H4 Hopen Hclose [(c & r & Hbody & Hs & Hq & _)
                              (c' & r' & Hrev & Hs' & Hq' & _)].
  unfold unfenced.
  assert (Hlast : ∃ c2 r2, reverse (body ++ closing) = c2 :: r2
                           ∧ is_space c2 = false).
  { destruct Hclose as [->|(ws3 & -> & H3)].
    - rewrite app_nil_r. eauto.
    - rewrite !reverse_app. change (reverse fence) with fence.
      unfold fence. simpl. eauto. }
  destruct Hlast as (c2 & r2 & Hrev2 & Hs2).
  assert (Hclosed : strip_close_fence (body ++ closing) = body).
  { destruct Hclose as [->|(ws3 & -> & H3)].
    - rewrite app_nil_r. by eapply strip_close_fence_other.
    - by eapply strip_close_fence_fenced. }
  destruct Hopen as [->|(tag & ws2 & -> & H2 & Htag)].
  - rewrite app_nil_l.
    replace (body ++ closing ++ ws4) with ((body ++ closing) ++ ws4)
      by (by rewrite <- (assoc_L (++))).
    rewrite (strip_between ws1 (body ++ closing) ws4 c (r ++ closing) c2 r2);
      [|done|done|by rewrite Hbody|done|done|done].
    rewrite Hbody at 1. rewrite <- app_comm_cons, strip_open_fence_other by done.
    by rewrite app_comm_cons, <- Hbody.
  - replace ((fence ++ tag ++ ws2) ++ body ++ closing ++ ws4)
      with ((fence ++ tag ++ ws2 ++ body ++ closing) ++ ws4)
      by (by rewrite <- !(assoc_L (++))).
    rewrite (strip_between ws1 (fence ++ tag ++ ws2 ++ body ++ closing) ws4
               "`"%char
               (["`"%char; "`"%char] ++ tag ++ ws2 ++ body ++ closing) c2
               (r2 ++ reverse (fence ++ tag ++ ws2)));
      [|done|done|done|done| |done].
    2:{ replace (fence ++ tag ++ ws2 ++ body ++ closing)
          with ((fence ++ tag ++ ws2) ++ body ++ closing)
          by (by rewrite <- !(assoc_L (++))).
        by rewrite reverse_app, Hrev2. }
    rewrite Hbody at 1. rewrite <- app_comm_cons.
    rewrite strip_open_fence_fenced; [|done|done|].
    + by rewrite app_comm_cons, <- Hbody.
    + destruct Htag as [->|[-> [Hne|Hj]]]; [by left|right; split; [done|by left]|].
      right. split; [done|]. right. intros ->. by apply (Hj r).
Qed.

Section ParseJsonFacts.
Context `{!JsonDecoder}.

(** X22.  [_parse_json] does not see whitespace around the text, an opening
    markdown fence with its optional [json] tag, or a closing fence: a text
    that begins and ends with a plain character is parsed alike with and
    without them. *)
Theorem parse_json_ignores_fence (ws1 opening body closing ws4 : list ascii) :
  whitespace ws1 → whitespace ws4 →
  opening_fence opening body → closing_fence closing → bare body →
  _parse_json (string_of_list_ascii (ws1 ++ opening ++ body ++ closing ++ ws4))
  = _parse_json (string_of_list_ascii body).
Proof.
  intros H1 H4 Hopen Hclose Hbare. unfold _parse_json. cbv zeta.
  rewrite !list_ascii_of_string_of_list_ascii.
  rewrite (unfenced_fenced ws1 opening body closing ws4) by done.
  pose proof (unfenced_fenced [] [] body [] []) as Hself.
  rewrite !app_nil_l, !app_nil_r in Hself.
  rewrite Hself; [done|constructor|constructor|by left|by left|done].
Qed.

End ParseJsonFacts.

End HandlerMore.

(** ** Concrete runs of the further properties *)

Import Toy.
Import Handler HandlerIO.

Lemma learn_zero_update_freq_witness :
  (update_freq (agent w_no_sync) = 0%Z
   ∧ supported_loss (loss_type (agent w_no_sync))
   ∧ (0 ≤ batch_size (agent w_no_sync) ≤ buffer_len (buffer (agent w_no_sync)))%Z)
  ∧ (run learn w_no_sync).1 = Raise ZeroDivisionError
  ∧ target_q_net (agent (run learn w_no_sync).2) = target_q_net (agent w_no_sync)
  ∧ step_count (agent (run learn w_no_sync).2) = 1%Z.
Proof.
  assert (H1 : update_freq (agent w_no_sync) = 0%Z) by reflexivity.
  assert (H2 : supported_loss (loss_type (agent w_no_sync))) by (by left).
  assert (H3 : (0 ≤ batch_size (agent w_no_sync)
                ≤ buffer_len (buffer (agent w_no_sync)))%Z)
    by (vm_compute; split; discriminate).
  split; [done|].
  destruct (learn_zero_update_freq w_no_sync H1 H2 H3)
    as (f & batch & g & _ & Hrest).
  cbv zeta in Hrest. destruct Hrest as (Hrun & Ht & Hs).
  split; [by rewrite Hrun|]. split; [exact Ht|]. rewrite Hs. reflexivity.
Defined.

Lemma learn_succeeds_iff_witness :
  (0 ≤ batch_size (agent w_train))%Z ∧ learn_succeeds w_train.
Proof.
  assert (Hbs : (0 ≤ batch_size (agent w_train))%Z) by (vm_compute; discriminate).
  split; [exact Hbs|].
  apply (proj2 (learn_succeeds_iff w_train Hbs)).
  split; [vm_compute; discriminate|]. split; [by left|].
  vm_compute. discriminate.
Defined.

Lemma select_slate_no_candidates_witness :
  Forall (λ p : string * list Emb, p.2 = []) cands_none
  ∧ run (select_slate [1] cands_none 3) w_explore = (Return [], w_explore).
Proof.
  assert (Hnone : Forall (λ p : string * list Emb, p.2 = []) cands_none)
    by (repeat constructor).
  split; [exact Hnone|].
  exact (select_slate_no_candidates [1] cands_none 3 w_explore Hnone).
Defined.

Lemma select_slate_exploit_valid_witness :
  exploits w_eps0
  ∧ ∃ slate,
      (run (select_slate [1] cands_P5 5) w_eps0).1 = Return slate
      ∧ (length slate ≤ 3)%nat
      ∧ NoDup slate.
Proof.
  assert (Hex : exploits w_eps0) by (vm_compute; reflexivity).
  split; [exact Hex|].
  destruct (select_slate_exploit_valid [1] cands_P5 5 w_eps0 Hex)
    as (slate & Hrun & _ & Hlen & Hnd).
  exists slate. split; [exact Hrun|]. split; [exact Hlen|].
  apply Hnd. refine (bool_decide_unpack _ _). vm_compute. exact I.
Defined.

(** The candidates of P5 are ranked B0, A1, A0: with [max_recs = -1] the
    exploiting call returns B0, A1 and leaves out the lowest-ranked A0. *)
Lemma select_slate_negative_size_witness :
  ((-1 < 0)%Z ∧ all_candidates cands_P5 ≠ []
   ∧ ¬ exploits w_explore ∧ exploits w_eps0)
  ∧ (run (select_slate [1] cands_P5 (-1)) w_explore).1 = Raise ValueError
  ∧ (run (select_slate [1] cands_P5 (-1)) w_eps0).1
    = Return [("B", 0%nat); ("A", 1%nat)].
Proof.
  assert (Hk : (-1 < 0)%Z) by lia.
  assert (Hne : all_candidates cands_P5 ≠ []) by (vm_compute; discriminate).
  assert (Hno : ¬ exploits w_explore) by (vm_compute; discriminate).
  assert (Hex : exploits w_eps0) by (vm_compute; reflexivity).
  split; [done|].
  split.
  - exact (proj1 (select_slate_negative_size [1] cands_P5 (-1) w_explore Hk Hne)
             Hno).
  - destruct (proj2 (select_slate_negative_size [1] cands_P5 (-1) w_eps0 Hk Hne)
                Hex) as (ranking & Hfull & _ & Hrun).
    rewrite Hrun.
    assert (Hr : ranking = [("B", 0%nat); ("A", 1%nat); ("A", 0%nat)]).
    { assert (Hc : (run (select_slate [1] cands_P5
                           (Z.of_nat (length (all_candidates cands_P5))))
                        w_eps0).1
                   = Return [("B", 0%nat); ("A", 1%nat); ("A", 0%nat)])
        by (vm_compute; reflexivity).
      rewrite Hc in Hfull. by injection Hfull as <-. }
    rewrite Hr. reflexivity.
Defined.

Lemma load_partial_on_missing_state_witness :
  (ck_q_net_state ck_no_target = Some (2 : Q)
   ∧ ck_target_net_state ck_no_target = None)
  ∧ run (load ck_no_target) w_step5
    = (Raise (KeyError "target_net_state"),
       mkWorld (set_q_net (2 : Q) (agent w_step5)) (rng w_step5)).
Proof.
  split; [split; reflexivity|].
  exact (proj1 (load_partial_on_missing_state ck_no_target w_step5 2 eq_refl)
           eq_refl).
Defined.

Lemma extraction_returns_only_if_witness :
  validate_and_extract responses_99 contents_78
  = Return [ mkContentResponse (JInt 7) true 30;
             mkContentResponse (JInt 8) false 0 ]
  ∧ Forall accepted_response responses_99
  ∧ Forall accepted_content contents_78.
Proof.
  assert (Hrun : validate_and_extract responses_99 contents_78
                 = Return [ mkContentResponse (JInt 7) true 30;
                            mkContentResponse (JInt 8) false 0 ])
    by (vm_compute; reflexivity).
  split; [exact Hrun|].
  exact (proj2 (HandlerMore.extraction_returns_only_if _ _ _ Hrun)).
Defined.

(** Two responses for three contents: the third content gets the default
    entry. *)
Lemma extraction_covers_contents_witness :
  (map (λ content, dict_get content "id") contents_789 = map JInt [7; 8; 9]%Z
   ∧ NoDup [7; 8; 9]%Z
   ∧ Forall accepted_response responses_99)
  ∧ ∃ matched,
      _extract_all_content_responses responses_99 contents_789
      = Return (matched ++ [default_response (JInt 9)])
      ∧ length matched = 2%nat.
Proof.
  assert (Hids : map (λ content, dict_get content "id") contents_789
                 = map JInt [7; 8; 9]%Z) by (vm_compute; reflexivity).
  assert (Hnd : NoDup [7; 8; 9]%Z)
    by (refine (bool_decide_unpack _ _); vm_compute; exact I).
  assert (Hacc : Forall accepted_response responses_99).
  { repeat constructor; eexists; vm_compute; reflexivity. }
  split; [done|].
  destruct (HandlerMore.extraction_covers_contents responses_99 contents_789
              [7; 8; 9]%Z Hids Hnd Hacc) as (matched & Hrun & Hlen & _).
  exists matched. split; [exact Hrun|exact Hlen].
Defined.

(** Two responses for two contents whose ids are strings: four entries. *)
Lemma extraction_duplicates_string_ids_witness :
  (map (λ content, dict_get content "id") contents_str = map JStr ["7"; "8"]
   ∧ Forall (λ s, is_Some (int_of_string s)) ["7"; "8"]
   ∧ length responses_99 = length contents_str
   ∧ Forall accepted_response responses_99)
  ∧ ∃ out, validate_and_extract responses_99 contents_str = Return out
           ∧ length out = 4%nat.
Proof.
  assert (Hids : map (λ content, dict_get content "id") contents_str
                 = map JStr ["7"; "8"]) by (vm_compute; reflexivity).
  assert (Hnum : Forall (λ s, is_Some (int_of_string s)) ["7"; "8"]).
  { repeat constructor; eexists; vm_compute; reflexivity. }
  assert (Hacc : Forall accepted_response responses_99).
  { repeat constructor; eexists; vm_compute; reflexivity. }
  split; [done|].
  destruct (HandlerMore.extraction_duplicates_string_ids responses_99
              contents_str ["7"; "8"] Hids Hnum eq_refl Hacc)
    as (matched & Hrun & Hlen & _).
  eexists. split; [exact Hrun|].
  rewrite length_app, length_map, Hlen. reflexivity.
Defined.

Lemma fallback_all_responses_spec_witness :
  ∃ out g',
    run (_create_fallback_all_responses contents_78) 7%Z = (Return out, g')
    ∧ length out = 2%nat.
Proof.
  destruct (HandlerMore.fallback_all_responses_spec contents_78 7%Z)
    as (out & g' & Hrun & Hout).
  exists out, g'. split; [exact Hrun|].
  exact (Forall2_length _ _ _ Hout).
Defined.

(** The text [N] holds a response without [content_id]: the extraction
    raises, and the fallback answers. *)
Lemma extract_all_responses_total_witness :
  try_extract "N" contents_7 = Raise TypeError
  ∧ ∃ out g',
      run (extract_all_responses "N" contents_7) 7%Z = (Return out, g')
      ∧ length out = 1%nat.
Proof.
  assert (Htry : try_extract "N" contents_7 = Raise TypeError)
    by (vm_compute; reflexivity).
  split; [exact Htry|].
  destruct (HandlerMore.extract_all_responses_total "N" contents_7 7%Z)
    as (out & g' & Hrun & _ & _ & Hcase).
  rewrite Htry in Hcase.
  exists out, g'. split; [exact Hrun|exact Hcase].
Defined.

Lemma create_fallback_response_spec_witness :
  ∃ event_type dwell g',
    run (create_fallback_response 0) 7%Z = (Return (event_type, dwell), g')
    ∧ event_type = "VIEW".
Proof.
  destruct (HandlerMore.create_fallback_response_spec 0 7%Z)
    as (ev & dwell & g' & Hrun & _ & Hview & _).
  exists ev, dwell, g'. split; [exact Hrun|].
  apply Hview. apply Qle_refl.
Defined.

Lemma parse_json_ignores_fence_witness :
  (whitespace [" "%char] ∧ whitespace ["010"%char]
   ∧ opening_fence (fence ++ list_ascii_of_string "json" ++ ["010"%char])
                   (list_ascii_of_string "R")
   ∧ closing_fence (["010"%char] ++ fence)
   ∧ bare (list_ascii_of_string "R"))
  ∧ _parse_json
      (string_of_list_ascii
         ([" "%char] ++ (fence ++ list_ascii_of_string "json" ++ ["010"%char])
          ++ list_ascii_of_string "R" ++ (["010"%char] ++ fence) ++ ["010"%char]))
    = Return (JList responses_99).
Proof.
  assert (H1 : whitespace [" "%char]) by (repeat constructor).
  assert (H4 : whitespace ["010"%char]) by (repeat constructor).
  assert (Ho : opening_fence (fence ++ list_ascii_of_string "json" ++ ["010"%char])
                             (list_ascii_of_string "R")).
  { right. exists (list_ascii_of_string "json"), ["010"%char].
    split; [reflexivity|]. split; [exact H4|by left]. }
  assert (Hc : closing_fence (["010"%char] ++ fence)).
  { right. exists ["010"%char]. split; [reflexivity|exact H4]. }
  assert (Hb : bare (list_ascii_of_string "R")).
  { split; exists "R"%char, []; (split; [reflexivity|]);
      (split; [reflexivity|]); (split; [discriminate|]); vm_compute; lia. }
  split; [done|].
  rewrite (HandlerMore.parse_json_ignores_fence _ _ _ _ _ H1 H4 Ho Hc Hb).
  vm_compute. reflexivity.
Defined.

Lemma select_action_index_in_range_witness :
  ∃ i g',
    run (select_action [1] [[0.2]; [0.5]]) w_explore
    = (Return i, mkWorld (agent w_explore) g')
    ∧ (0 ≤ i < 2)%Z.
Proof.
  destruct (proj1 (select_action_index_in_range [1] [[0.2]; [0.5]] w_explore))
    as (i & g' & Hrun & Hi); [discriminate|].
  exists i, g'. split; [exact Hrun|exact Hi].
Defined.

Lemma select_slate_explore_valid_witness :
  (¬ exploits w_explore ∧ (0 ≤ 2)%Z ∧ all_candidates cands_P5 ≠ [])
  ∧ ∃ slate g',
      run (select_slate [1] cands_P5 2) w_explore
      = (Return slate, mkWorld (agent w_explore) g')
      ∧ Z.of_nat (length slate) = 2%Z
      ∧ NoDup slate.
Proof.
  assert (Hno : ¬ exploits w_explore) by (vm_compute; discriminate).
  assert (Hk : (0 ≤ 2)%Z) by lia.
  assert (Hne : all_candidates cands_P5 ≠ []) by (vm_compute; discriminate).
  split; [done|].
  destruct (select_slate_explore_valid [1] cands_P5 2 w_explore Hno Hk Hne)
    as (slate & g' & Hrun & Hlen & _ & Hnd).
  exists slate, g'. split; [exact Hrun|]. split; [exact Hlen|].
  apply Hnd. refine (bool_decide_unpack _ _). vm_compute. exact I.
Defined.
